(** * Server-side QUIC handshake driver: quic/server/handshake/ServerHandshake.cpp

    A shallow embedding of the [ServerHandshake] class.  The object's data
    members become the fields of one record, every member function becomes a
    function on that record, and the three ways a call can end (normal
    return, a thrown [QuicTransportException], process abort through
    [LOG(FATAL)] / [CHECK]) become the constructors of [Outcome].

    The TLS engine sits behind the pure virtual member functions of the
    class; they are defined in a subclass that is not part of this file and
    are represented by the record [Engine]. *)

From Stdlib Require Import List String Bool Arith NArith Lia.
From Stdlib.Strings Require Import Byte.
Import ListNotations.

Set Implicit Arguments.
Local Open Scope string_scope.
Local Open Scope list_scope.

(** ** Enumerations *)

(** [enum class EncryptionLevel], the four enumerators the switches name. *)
Inductive EncryptionLevel : Type :=
  | Initial
  | Handshake
  | EarlyData
  | AppData.

(** A run-time value of type [EncryptionLevel]: one of the enumerators, or
    another value of the underlying integer type, which is what the
    [default:] branches of the switches are written for. *)
Inductive LevelValue : Type :=
  | Enumerator (l : EncryptionLevel)
  | OutOfRange (raw : N).

Definition EncryptionLevel_eqb (a b : EncryptionLevel) : bool :=
  match a, b with
  | Initial, Initial | Handshake, Handshake
  | EarlyData, EarlyData | AppData, AppData => true
  | _, _ => false
  end.

(** [enum class CipherKind] of the class. *)
Inductive CipherKind : Type :=
  | HandshakeRead
  | HandshakeWrite
  | OneRttRead
  | OneRttWrite
  | ZeroRttRead.

(** [TransportErrorCode]: the file names only [INTERNAL_ERROR]; every other
    code reaches it from the engine and is kept by its number. *)
Inductive TransportErrorCode : Type :=
  | INTERNAL_ERROR
  | OtherTransportError (code : N).

(** [std::pair<std::string, TransportErrorCode>], the payload of [error_]. *)
Definition Error : Type := (string * TransportErrorCode)%type.

(** The three read buffers, as the lvalues [processSocketData] is given. *)
Inductive ReadBufRef : Type :=
  | initialReadBuf
  | handshakeReadBuf
  | appDataReadBuf.

Definition ReadBufRef_eqb (a b : ReadBufRef) : bool :=
  match a, b with
  | initialReadBuf, initialReadBuf
  | handshakeReadBuf, handshakeReadBuf
  | appDataReadBuf, appDataReadBuf => true
  | _, _ => false
  end.

(** ** Types the file only passes around *)

Record ExternalTypes : Type := {
  Aead : Type;
  PacketNumberCipher : Type;
  Phase : Type;
  ClientTransportParameters : Type;
  ServerTransportParametersExtension : Type;
  Executor : Type;
  HandshakeCallback : Type;
  AppToken : Type;
  AppTokenValidator : Type
}.

Section Model.

Variable T : ExternalTypes.

(** ** Engine actions *)

(** Modelled from the spec: the action variant ([fizz::server::Actions]) and
    its visitor live in the engine-specific subclass, which is missing.
    The spec (2, 4.2, 4.3) lists what a completed batch can ask of the
    controller: install a cipher from a secret, write bytes to a crypto
    stream, report an error, report handshake completion, signal that
    more data is needed, and set the phase. *)
Inductive Action : Type :=
  | SecretAvailable (kind : CipherKind) (secret : list byte)
  | WriteToSocket (level : LevelValue) (data : list byte)
  | ReportError (message : string) (code : TransportErrorCode)
  | ReportHandshakeSuccess
  | WaitForData
  | SetPhase (p : Phase T).

Definition Actions : Type := list Action.

(** [fizz::server::AsyncActions]: a batch that is already there, or a
    future of one.  The future carries the batch it will be fulfilled
    with; a future that is fulfilled by the time [then] is called runs its
    continuation on the spot and is an immediate batch here. *)
Inductive AsyncActions : Type :=
  | ImmediateActions (batch : Actions)
  | FutureActions (batch : Actions).

(** ** The engine behind the pure virtual member functions *)

(** Modelled from the spec: [processAccept], [initializeImpl],
    [writeNewSessionTicketToCrypto], [processSocketData],
    [processPendingCryptoEvent], [getReadRecordLayerEncryptionLevel] and
    [buildCiphers] are declared by the class and defined in the missing
    subclass.  Following 4.2 and 6 of the spec, the engine has a state of
    its own, reports the level it expects to read next, is handed the
    whole contents of a read buffer and says how many leading bytes it
    took together with the actions it yields, may resume a deferred
    crypto event, and derives a cipher pair from a secret.  The last
    field is the accessor of the transport-parameters holder that
    [getClientTransportParams] forwards to. *)
Record Engine : Type := {
  EngineState : Type;
  engineReadLevel : EngineState -> LevelValue;
  engineSocketData :
    EngineState -> list byte -> EngineState * nat * AsyncActions;
  enginePendingCryptoEvent :
    EngineState -> option (EngineState * AsyncActions);
  engineAccept :
    EngineState -> option (ServerTransportParametersExtension T) ->
    EngineState * AsyncActions;
  engineNewSessionTicket : AppToken T -> EngineState -> EngineState;
  engineInitialize : AppTokenValidator T -> EngineState -> EngineState;
  buildCiphers : list byte -> Aead T * PacketNumberCipher T;
  holderClientTransportParams :
    ServerTransportParametersExtension T ->
    option (ClientTransportParameters T)
}.

Variable E : Engine.

(** ** The connection object behind [conn_] *)

(** Modelled from the spec: [QuicConnectionStateBase] is declared
    elsewhere.  The file touches its handshake write cipher pair and,
    through [getCryptoStream] and [writeDataToQuicStream], the crypto
    stream of a level, which the spec describes as appending the bytes
    to that stream. *)
Record QuicConnectionStateBase : Type := mkConn {
  handshakeWriteCipher : option (Aead T);
  handshakeWriteHeaderCipher : option (PacketNumberCipher T);
  cryptoState : EncryptionLevel -> list byte
}.

(** ** What the class does to the outside *)

(** The calls that leave the class and matter to its callers, in the order
    they are made: [callback_->onCryptoEventAvailable()], and a read
    buffer handed to the engine, with its contents at that moment and the
    number of leading bytes the engine took.  What the application does
    inside its callback is not part of this file and not modelled. *)
Inductive Event : Type :=
  | onCryptoEventAvailable (cb : HandshakeCallback T)
  | EngineRead (buf : ReadBufRef) (contents : list byte) (taken : nat).

(** ** The object *)

(** The data members of [ServerHandshake] under their own names, then the
    engine state held by the subclass, the continuations registered with
    [Future::then] that have not run yet, and the log of calls that left
    the class.  [actionGuard_] is a [DestructorGuard] on the live
    connection and is modelled by what [operator bool] gives. *)
Record State : Type := mkState {
  conn_ : QuicConnectionStateBase;
  actionGuard_ : bool;
  transportParams_ : option (ServerTransportParametersExtension T);
  inHandshakeStack_ : bool;
  executor_ : option (Executor T);
  waitForData_ : bool;
  initialReadBuf_ : list byte;
  handshakeReadBuf_ : list byte;
  appDataReadBuf_ : list byte;
  error_ : option Error;
  handshakeReadCipher_ : option (Aead T);
  oneRttWriteCipher_ : option (Aead T);
  oneRttReadCipher_ : option (Aead T);
  zeroRttReadCipher_ : option (Aead T);
  oneRttReadHeaderCipher_ : option (PacketNumberCipher T);
  oneRttWriteHeaderCipher_ : option (PacketNumberCipher T);
  handshakeReadHeaderCipher_ : option (PacketNumberCipher T);
  zeroRttReadHeaderCipher_ : option (PacketNumberCipher T);
  callback_ : option (HandshakeCallback T);
  phase_ : Phase T;
  handshakeDone_ : bool;
  handshakeEventAvailable_ : bool;
  inProcessPendingEvents_ : bool;
  engine_ : EngineState E;
  futures_ : list Actions;
  events_ : list Event
}.

Definition set_conn_ (v : QuicConnectionStateBase) (s : State) : State :=
  mkState v (actionGuard_ s) (transportParams_ s) (inHandshakeStack_ s)
    (executor_ s) (waitForData_ s) (initialReadBuf_ s) (handshakeReadBuf_ s)
    (appDataReadBuf_ s) (error_ s) (handshakeReadCipher_ s)
    (oneRttWriteCipher_ s) (oneRttReadCipher_ s) (zeroRttReadCipher_ s)
    (oneRttReadHeaderCipher_ s) (oneRttWriteHeaderCipher_ s)
    (handshakeReadHeaderCipher_ s) (zeroRttReadHeaderCipher_ s)
    (callback_ s) (phase_ s) (handshakeDone_ s) (handshakeEventAvailable_ s)
    (inProcessPendingEvents_ s) (engine_ s) (futures_ s) (events_ s).
Definition set_actionGuard_ (v : bool) (s : State) : State :=
  mkState (conn_ s) v (transportParams_ s) (inHandshakeStack_ s)
    (executor_ s) (waitForData_ s) (initialReadBuf_ s) (handshakeReadBuf_ s)
    (appDataReadBuf_ s) (error_ s) (handshakeReadCipher_ s)
    (oneRttWriteCipher_ s) (oneRttReadCipher_ s) (zeroRttReadCipher_ s)
    (oneRttReadHeaderCipher_ s) (oneRttWriteHeaderCipher_ s)
    (handshakeReadHeaderCipher_ s) (zeroRttReadHeaderCipher_ s)
    (callback_ s) (phase_ s) (handshakeDone_ s) (handshakeEventAvailable_ s)
    (inProcessPendingEvents_ s) (engine_ s) (futures_ s) (events_ s).
Definition set_transportParams_ (v : option (ServerTransportParametersExtension T)) (s : State) : State :=
  mkState (conn_ s) (actionGuard_ s) v (inHandshakeStack_ s) (executor_ s)
    (waitForData_ s) (initialReadBuf_ s) (handshakeReadBuf_ s)
    (appDataReadBuf_ s) (error_ s) (handshakeReadCipher_ s)
    (oneRttWriteCipher_ s) (oneRttReadCipher_ s) (zeroRttReadCipher_ s)
    (oneRttReadHeaderCipher_ s) (oneRttWriteHeaderCipher_ s)
    (handshakeReadHeaderCipher_ s) (zeroRttReadHeaderCipher_ s)
    (callback_ s) (phase_ s) (handshakeDone_ s) (handshakeEventAvailable_ s)
    (inProcessPendingEvents_ s) (engine_ s) (futures_ s) (events_ s).
Definition set_inHandshakeStack_ (v : bool) (s : State) : State :=
  mkState (conn_ s) (actionGuard_ s) (transportParams_ s) v (executor_ s)
    (waitForData_ s) (initialReadBuf_ s) (handshakeReadBuf_ s)
    (appDataReadBuf_ s) (error_ s) (handshakeReadCipher_ s)
    (oneRttWriteCipher_ s) (oneRttReadCipher_ s) (zeroRttReadCipher_ s)
    (oneRttReadHeaderCipher_ s) (oneRttWriteHeaderCipher_ s)
    (handshakeReadHeaderCipher_ s) (zeroRttReadHeaderCipher_ s)
    (callback_ s) (phase_ s) (handshakeDone_ s) (handshakeEventAvailable_ s)
    (inProcessPendingEvents_ s) (engine_ s) (futures_ s) (events_ s).
Definition set_executor_ (v : option (Executor T)) (s : State) : State :=
  mkState (conn_ s) (actionGuard_ s) (transportParams_ s)
    (inHandshakeStack_ s) v (waitForData_ s) (initialReadBuf_ s)
    (handshakeReadBuf_ s) (appDataReadBuf_ s) (error_ s)
    (handshakeReadCipher_ s) (oneRttWriteCipher_ s) (oneRttReadCipher_ s)
    (zeroRttReadCipher_ s) (oneRttReadHeaderCipher_ s)
    (oneRttWriteHeaderCipher_ s) (handshakeReadHeaderCipher_ s)
    (zeroRttReadHeaderCipher_ s) (callback_ s) (phase_ s) (handshakeDone_ s)
    (handshakeEventAvailable_ s) (inProcessPendingEvents_ s) (engine_ s)
    (futures_ s) (events_ s).
Definition set_waitForData_ (v : bool) (s : State) : State :=
  mkState (conn_ s) (actionGuard_ s) (transportParams_ s)
    (inHandshakeStack_ s) (executor_ s) v (initialReadBuf_ s)
    (handshakeReadBuf_ s) (appDataReadBuf_ s) (error_ s)
    (handshakeReadCipher_ s) (oneRttWriteCipher_ s) (oneRttReadCipher_ s)
    (zeroRttReadCipher_ s) (oneRttReadHeaderCipher_ s)
    (oneRttWriteHeaderCipher_ s) (handshakeReadHeaderCipher_ s)
    (zeroRttReadHeaderCipher_ s) (callback_ s) (phase_ s) (handshakeDone_ s)
    (handshakeEventAvailable_ s) (inProcessPendingEvents_ s) (engine_ s)
    (futures_ s) (events_ s).
Definition set_initialReadBuf_ (v : list byte) (s : State) : State :=
  mkState (conn_ s) (actionGuard_ s) (transportParams_ s)
    (inHandshakeStack_ s) (executor_ s) (waitForData_ s) v
    (handshakeReadBuf_ s) (appDataReadBuf_ s) (error_ s)
    (handshakeReadCipher_ s) (oneRttWriteCipher_ s) (oneRttReadCipher_ s)
    (zeroRttReadCipher_ s) (oneRttReadHeaderCipher_ s)
    (oneRttWriteHeaderCipher_ s) (handshakeReadHeaderCipher_ s)
    (zeroRttReadHeaderCipher_ s) (callback_ s) (phase_ s) (handshakeDone_ s)
    (handshakeEventAvailable_ s) (inProcessPendingEvents_ s) (engine_ s)
    (futures_ s) (events_ s).
Definition set_handshakeReadBuf_ (v : list byte) (s : State) : State :=
  mkState (conn_ s) (actionGuard_ s) (transportParams_ s)
    (inHandshakeStack_ s) (executor_ s) (waitForData_ s) (initialReadBuf_ s)
    v (appDataReadBuf_ s) (error_ s) (handshakeReadCipher_ s)
    (oneRttWriteCipher_ s) (oneRttReadCipher_ s) (zeroRttReadCipher_ s)
    (oneRttReadHeaderCipher_ s) (oneRttWriteHeaderCipher_ s)
    (handshakeReadHeaderCipher_ s) (zeroRttReadHeaderCipher_ s)
    (callback_ s) (phase_ s) (handshakeDone_ s) (handshakeEventAvailable_ s)
    (inProcessPendingEvents_ s) (engine_ s) (futures_ s) (events_ s).
Definition set_appDataReadBuf_ (v : list byte) (s : State) : State :=
  mkState (conn_ s) (actionGuard_ s) (transportParams_ s)
    (inHandshakeStack_ s) (executor_ s) (waitForData_ s) (initialReadBuf_ s)
    (handshakeReadBuf_ s) v (error_ s) (handshakeReadCipher_ s)
    (oneRttWriteCipher_ s) (oneRttReadCipher_ s) (zeroRttReadCipher_ s)
    (oneRttReadHeaderCipher_ s) (oneRttWriteHeaderCipher_ s)
    (handshakeReadHeaderCipher_ s) (zeroRttReadHeaderCipher_ s)
    (callback_ s) (phase_ s) (handshakeDone_ s) (handshakeEventAvailable_ s)
    (inProcessPendingEvents_ s) (engine_ s) (futures_ s) (events_ s).
Definition set_error_ (v : option Error) (s : State) : State :=
  mkState (conn_ s) (actionGuard_ s) (transportParams_ s)
    (inHandshakeStack_ s) (executor_ s) (waitForData_ s) (initialReadBuf_ s)
    (handshakeReadBuf_ s) (appDataReadBuf_ s) v (handshakeReadCipher_ s)
    (oneRttWriteCipher_ s) (oneRttReadCipher_ s) (zeroRttReadCipher_ s)
    (oneRttReadHeaderCipher_ s) (oneRttWriteHeaderCipher_ s)
    (handshakeReadHeaderCipher_ s) (zeroRttReadHeaderCipher_ s)
    (callback_ s) (phase_ s) (handshakeDone_ s) (handshakeEventAvailable_ s)
    (inProcessPendingEvents_ s) (engine_ s) (futures_ s) (events_ s).
Definition set_handshakeReadCipher_ (v : option (Aead T)) (s : State) : State :=
  mkState (conn_ s) (actionGuard_ s) (transportParams_ s)
    (inHandshakeStack_ s) (executor_ s) (waitForData_ s) (initialReadBuf_ s)
    (handshakeReadBuf_ s) (appDataReadBuf_ s) (error_ s) v
    (oneRttWriteCipher_ s) (oneRttReadCipher_ s) (zeroRttReadCipher_ s)
    (oneRttReadHeaderCipher_ s) (oneRttWriteHeaderCipher_ s)
    (handshakeReadHeaderCipher_ s) (zeroRttReadHeaderCipher_ s)
    (callback_ s) (phase_ s) (handshakeDone_ s) (handshakeEventAvailable_ s)
    (inProcessPendingEvents_ s) (engine_ s) (futures_ s) (events_ s).
Definition set_oneRttWriteCipher_ (v : option (Aead T)) (s : State) : State :=
  mkState (conn_ s) (actionGuard_ s) (transportParams_ s)
    (inHandshakeStack_ s) (executor_ s) (waitForData_ s) (initialReadBuf_ s)
    (handshakeReadBuf_ s) (appDataReadBuf_ s) (error_ s)
    (handshakeReadCipher_ s) v (oneRttReadCipher_ s) (zeroRttReadCipher_ s)
    (oneRttReadHeaderCipher_ s) (oneRttWriteHeaderCipher_ s)
    (handshakeReadHeaderCipher_ s) (zeroRttReadHeaderCipher_ s)
    (callback_ s) (phase_ s) (handshakeDone_ s) (handshakeEventAvailable_ s)
    (inProcessPendingEvents_ s) (engine_ s) (futures_ s) (events_ s).
Definition set_oneRttReadCipher_ (v : option (Aead T)) (s : State) : State :=
  mkState (conn_ s) (actionGuard_ s) (transportParams_ s)
    (inHandshakeStack_ s) (executor_ s) (waitForData_ s) (initialReadBuf_ s)
    (handshakeReadBuf_ s) (appDataReadBuf_ s) (error_ s)
    (handshakeReadCipher_ s) (oneRttWriteCipher_ s) v (zeroRttReadCipher_ s)
    (oneRttReadHeaderCipher_ s) (oneRttWriteHeaderCipher_ s)
    (handshakeReadHeaderCipher_ s) (zeroRttReadHeaderCipher_ s)
    (callback_ s) (phase_ s) (handshakeDone_ s) (handshakeEventAvailable_ s)
    (inProcessPendingEvents_ s) (engine_ s) (futures_ s) (events_ s).
Definition set_zeroRttReadCipher_ (v : option (Aead T)) (s : State) : State :=
  mkState (conn_ s) (actionGuard_ s) (transportParams_ s)
    (inHandshakeStack_ s) (executor_ s) (waitForData_ s) (initialReadBuf_ s)
    (handshakeReadBuf_ s) (appDataReadBuf_ s) (error_ s)
    (handshakeReadCipher_ s) (oneRttWriteCipher_ s) (oneRttReadCipher_ s) v
    (oneRttReadHeaderCipher_ s) (oneRttWriteHeaderCipher_ s)
    (handshakeReadHeaderCipher_ s) (zeroRttReadHeaderCipher_ s)
    (callback_ s) (phase_ s) (handshakeDone_ s) (handshakeEventAvailable_ s)
    (inProcessPendingEvents_ s) (engine_ s) (futures_ s) (events_ s).
Definition set_oneRttReadHeaderCipher_ (v : option (PacketNumberCipher T)) (s : State) : State :=
  mkState (conn_ s) (actionGuard_ s) (transportParams_ s)
    (inHandshakeStack_ s) (executor_ s) (waitForData_ s) (initialReadBuf_ s)
    (handshakeReadBuf_ s) (appDataReadBuf_ s) (error_ s)
    (handshakeReadCipher_ s) (oneRttWriteCipher_ s) (oneRttReadCipher_ s)
    (zeroRttReadCipher_ s) v (oneRttWriteHeaderCipher_ s)
    (handshakeReadHeaderCipher_ s) (zeroRttReadHeaderCipher_ s)
    (callback_ s) (phase_ s) (handshakeDone_ s) (handshakeEventAvailable_ s)
    (inProcessPendingEvents_ s) (engine_ s) (futures_ s) (events_ s).
Definition set_oneRttWriteHeaderCipher_ (v : option (PacketNumberCipher T)) (s : State) : State :=
  mkState (conn_ s) (actionGuard_ s) (transportParams_ s)
    (inHandshakeStack_ s) (executor_ s) (waitForData_ s) (initialReadBuf_ s)
    (handshakeReadBuf_ s) (appDataReadBuf_ s) (error_ s)
    (handshakeReadCipher_ s) (oneRttWriteCipher_ s) (oneRttReadCipher_ s)
    (zeroRttReadCipher_ s) (oneRttReadHeaderCipher_ s) v
    (handshakeReadHeaderCipher_ s) (zeroRttReadHeaderCipher_ s)
    (callback_ s) (phase_ s) (handshakeDone_ s) (handshakeEventAvailable_ s)
    (inProcessPendingEvents_ s) (engine_ s) (futures_ s) (events_ s).
Definition set_handshakeReadHeaderCipher_ (v : option (PacketNumberCipher T)) (s : State) : State :=
  mkState (conn_ s) (actionGuard_ s) (transportParams_ s)
    (inHandshakeStack_ s) (executor_ s) (waitForData_ s) (initialReadBuf_ s)
    (handshakeReadBuf_ s) (appDataReadBuf_ s) (error_ s)
    (handshakeReadCipher_ s) (oneRttWriteCipher_ s) (oneRttReadCipher_ s)
    (zeroRttReadCipher_ s) (oneRttReadHeaderCipher_ s)
    (oneRttWriteHeaderCipher_ s) v (zeroRttReadHeaderCipher_ s)
    (callback_ s) (phase_ s) (handshakeDone_ s) (handshakeEventAvailable_ s)
    (inProcessPendingEvents_ s) (engine_ s) (futures_ s) (events_ s).
Definition set_zeroRttReadHeaderCipher_ (v : option (PacketNumberCipher T)) (s : State) : State :=
  mkState (conn_ s) (actionGuard_ s) (transportParams_ s)
    (inHandshakeStack_ s) (executor_ s) (waitForData_ s) (initialReadBuf_ s)
    (handshakeReadBuf_ s) (appDataReadBuf_ s) (error_ s)
    (handshakeReadCipher_ s) (oneRttWriteCipher_ s) (oneRttReadCipher_ s)
    (zeroRttReadCipher_ s) (oneRttReadHeaderCipher_ s)
    (oneRttWriteHeaderCipher_ s) (handshakeReadHeaderCipher_ s) v
    (callback_ s) (phase_ s) (handshakeDone_ s) (handshakeEventAvailable_ s)
    (inProcessPendingEvents_ s) (engine_ s) (futures_ s) (events_ s).
Definition set_callback_ (v : option (HandshakeCallback T)) (s : State) : State :=
  mkState (conn_ s) (actionGuard_ s) (transportParams_ s)
    (inHandshakeStack_ s) (executor_ s) (waitForData_ s) (initialReadBuf_ s)
    (handshakeReadBuf_ s) (appDataReadBuf_ s) (error_ s)
    (handshakeReadCipher_ s) (oneRttWriteCipher_ s) (oneRttReadCipher_ s)
    (zeroRttReadCipher_ s) (oneRttReadHeaderCipher_ s)
    (oneRttWriteHeaderCipher_ s) (handshakeReadHeaderCipher_ s)
    (zeroRttReadHeaderCipher_ s) v (phase_ s) (handshakeDone_ s)
    (handshakeEventAvailable_ s) (inProcessPendingEvents_ s) (engine_ s)
    (futures_ s) (events_ s).
Definition set_phase_ (v : Phase T) (s : State) : State :=
  mkState (conn_ s) (actionGuard_ s) (transportParams_ s)
    (inHandshakeStack_ s) (executor_ s) (waitForData_ s) (initialReadBuf_ s)
    (handshakeReadBuf_ s) (appDataReadBuf_ s) (error_ s)
    (handshakeReadCipher_ s) (oneRttWriteCipher_ s) (oneRttReadCipher_ s)
    (zeroRttReadCipher_ s) (oneRttReadHeaderCipher_ s)
    (oneRttWriteHeaderCipher_ s) (handshakeReadHeaderCipher_ s)
    (zeroRttReadHeaderCipher_ s) (callback_ s) v (handshakeDone_ s)
    (handshakeEventAvailable_ s) (inProcessPendingEvents_ s) (engine_ s)
    (futures_ s) (events_ s).
Definition set_handshakeDone_ (v : bool) (s : State) : State :=
  mkState (conn_ s) (actionGuard_ s) (transportParams_ s)
    (inHandshakeStack_ s) (executor_ s) (waitForData_ s) (initialReadBuf_ s)
    (handshakeReadBuf_ s) (appDataReadBuf_ s) (error_ s)
    (handshakeReadCipher_ s) (oneRttWriteCipher_ s) (oneRttReadCipher_ s)
    (zeroRttReadCipher_ s) (oneRttReadHeaderCipher_ s)
    (oneRttWriteHeaderCipher_ s) (handshakeReadHeaderCipher_ s)
    (zeroRttReadHeaderCipher_ s) (callback_ s) (phase_ s) v
    (handshakeEventAvailable_ s) (inProcessPendingEvents_ s) (engine_ s)
    (futures_ s) (events_ s).
Definition set_handshakeEventAvailable_ (v : bool) (s : State) : State :=
  mkState (conn_ s) (actionGuard_ s) (transportParams_ s)
    (inHandshakeStack_ s) (executor_ s) (waitForData_ s) (initialReadBuf_ s)
    (handshakeReadBuf_ s) (appDataReadBuf_ s) (error_ s)
    (handshakeReadCipher_ s) (oneRttWriteCipher_ s) (oneRttReadCipher_ s)
    (zeroRttReadCipher_ s) (oneRttReadHeaderCipher_ s)
    (oneRttWriteHeaderCipher_ s) (handshakeReadHeaderCipher_ s)
    (zeroRttReadHeaderCipher_ s) (callback_ s) (phase_ s) (handshakeDone_ s)
    v (inProcessPendingEvents_ s) (engine_ s) (futures_ s) (events_ s).
Definition set_inProcessPendingEvents_ (v : bool) (s : State) : State :=
  mkState (conn_ s) (actionGuard_ s) (transportParams_ s)
    (inHandshakeStack_ s) (executor_ s) (waitForData_ s) (initialReadBuf_ s)
    (handshakeReadBuf_ s) (appDataReadBuf_ s) (error_ s)
    (handshakeReadCipher_ s) (oneRttWriteCipher_ s) (oneRttReadCipher_ s)
    (zeroRttReadCipher_ s) (oneRttReadHeaderCipher_ s)
    (oneRttWriteHeaderCipher_ s) (handshakeReadHeaderCipher_ s)
    (zeroRttReadHeaderCipher_ s) (callback_ s) (phase_ s) (handshakeDone_ s)
    (handshakeEventAvailable_ s) v (engine_ s) (futures_ s) (events_ s).
Definition set_engine_ (v : EngineState E) (s : State) : State :=
  mkState (conn_ s) (actionGuard_ s) (transportParams_ s)
    (inHandshakeStack_ s) (executor_ s) (waitForData_ s) (initialReadBuf_ s)
    (handshakeReadBuf_ s) (appDataReadBuf_ s) (error_ s)
    (handshakeReadCipher_ s) (oneRttWriteCipher_ s) (oneRttReadCipher_ s)
    (zeroRttReadCipher_ s) (oneRttReadHeaderCipher_ s)
    (oneRttWriteHeaderCipher_ s) (handshakeReadHeaderCipher_ s)
    (zeroRttReadHeaderCipher_ s) (callback_ s) (phase_ s) (handshakeDone_ s)
    (handshakeEventAvailable_ s) (inProcessPendingEvents_ s) v (futures_ s)
    (events_ s).
Definition set_futures_ (v : list Actions) (s : State) : State :=
  mkState (conn_ s) (actionGuard_ s) (transportParams_ s)
    (inHandshakeStack_ s) (executor_ s) (waitForData_ s) (initialReadBuf_ s)
    (handshakeReadBuf_ s) (appDataReadBuf_ s) (error_ s)
    (handshakeReadCipher_ s) (oneRttWriteCipher_ s) (oneRttReadCipher_ s)
    (zeroRttReadCipher_ s) (oneRttReadHeaderCipher_ s)
    (oneRttWriteHeaderCipher_ s) (handshakeReadHeaderCipher_ s)
    (zeroRttReadHeaderCipher_ s) (callback_ s) (phase_ s) (handshakeDone_ s)
    (handshakeEventAvailable_ s) (inProcessPendingEvents_ s) (engine_ s) v
    (events_ s).
Definition set_events_ (v : list Event) (s : State) : State :=
  mkState (conn_ s) (actionGuard_ s) (transportParams_ s)
    (inHandshakeStack_ s) (executor_ s) (waitForData_ s) (initialReadBuf_ s)
    (handshakeReadBuf_ s) (appDataReadBuf_ s) (error_ s)
    (handshakeReadCipher_ s) (oneRttWriteCipher_ s) (oneRttReadCipher_ s)
    (zeroRttReadCipher_ s) (oneRttReadHeaderCipher_ s)
    (oneRttWriteHeaderCipher_ s) (handshakeReadHeaderCipher_ s)
    (zeroRttReadHeaderCipher_ s) (callback_ s) (phase_ s) (handshakeDone_ s)
    (handshakeEventAvailable_ s) (inProcessPendingEvents_ s) (engine_ s)
    (futures_ s) v.

(** ** How a call ends *)

(** A member function returns, lets a [QuicTransportException] escape, or
    stops the process ([LOG(FATAL)], a failed [CHECK]).  The drain loop
    need not terminate, so the functions that contain it are given fuel;
    [OutOfFuel] holds the state reached when it ran out. *)
Inductive Outcome (A : Type) : Type :=
  | Returned (a : A) (s : State)
  | Thrown (e : Error) (s : State)
  | Fatal (message : string)
  | OutOfFuel (s : State).

Arguments Returned {A} a s.
Arguments Thrown {A} e s.
Arguments Fatal {A} message.
Arguments OutOfFuel {A} s.

Definition M (A : Type) : Type := State -> Outcome A.

Definition ret {A : Type} (a : A) : M A := fun s => Returned a s.

Definition bind {A B : Type} (c : M A) (k : A -> M B) : M B :=
  fun s =>
    match c s with
    | Returned a s' => k a s'
    | Thrown e s' => Thrown e s'
    | Fatal m => Fatal m
    | OutOfFuel s' => OutOfFuel s'
    end.

Definition gets {A : Type} (f : State -> A) : M A := fun s => Returned (f s) s.
Definition modify (f : State -> State) : M unit := fun s => Returned tt (f s).
Definition throw {A : Type} (e : Error) : M A := fun s => Thrown e s.
Definition fatal {A : Type} (message : string) : M A := fun _ => Fatal message.
Definition outOfFuel {A : Type} : M A := fun s => OutOfFuel s.

(** [SCOPE_EXIT { ... }]: the block runs when the scope is left, by return
    or by exception. *)
Definition scope_exit {A : Type} (f : State -> State) (c : M A) : M A :=
  fun s =>
    match c s with
    | Returned a s' => Returned a (f s')
    | Thrown e s' => Thrown e (f s')
    | Fatal m => Fatal m
    | OutOfFuel s' => OutOfFuel s'
    end.

Notation "x <- c ;; k" := (bind c (fun x => k))
  (at level 61, c at next level, right associativity).
Notation "c ;; k" := (bind c (fun _ => k))
  (at level 61, right associativity).

Definition isSome {A : Type} (o : option A) : bool :=
  match o with Some _ => true | None => false end.

Definition log (ev : Event) : M unit :=
  modify (fun s => set_events_ (events_ s ++ [ev]) s).

(** ** Members that cannot fail *)

(** [ServerHandshake::ServerHandshake(conn)]: [conn_] and an empty
    [actionGuard_]; the smart pointers, the optional error and the buffers
    start empty.
    Modelled from the spec: the in-class initialisers of the flags and of
    [phase_] are in the header, which is missing.  By 3 of the spec the
    re-entrancy flags are true only inside their calls and the done flag
    is set only on completion, so the flags start [false]; the initial
    phase is a parameter. *)
Definition newServerHandshake (conn : QuicConnectionStateBase)
    (phase0 : Phase T) (engine0 : EngineState E) : State :=
  mkState conn false None false None false [] [] [] None
    None None None None None None None None
    None phase0 false false false engine0 [] [].

Definition cancel (s : State) : State := set_callback_ None s.

Definition getPhase (s : State) : Phase T := phase_ s.

(** [transportParams_->getClientTransportParams()]: [None] stands for the
    dereference of a null [shared_ptr]. *)
Definition getClientTransportParams (s : State)
    : option (option (ClientTransportParameters T)) :=
  match transportParams_ s with
  | None => None
  | Some holder => Some (holderClientTransportParams E holder)
  end.

Definition isHandshakeDone (s : State) : bool := handshakeDone_ s.

Definition onError (error : Error) (s : State) : State :=
  set_handshakeEventAvailable_ true (set_error_ (Some error) s).

Definition onHandshakeDone (s : State) : State :=
  set_handshakeEventAvailable_ true s.

Definition isCancelled (s : State) : bool := negb (isSome (callback_ s)).

Definition computeCiphers (kind : CipherKind) (secret : list byte)
    (s : State) : State :=
  let (aead, headerCipher) := buildCiphers E secret in
  let s1 :=
    match kind with
    | HandshakeRead =>
        set_handshakeReadHeaderCipher_ (Some headerCipher)
          (set_handshakeReadCipher_ (Some aead) s)
    | HandshakeWrite =>
        set_conn_
          (mkConn (Some aead) (Some headerCipher) (cryptoState (conn_ s))) s
    | OneRttRead =>
        set_oneRttReadHeaderCipher_ (Some headerCipher)
          (set_oneRttReadCipher_ (Some aead) s)
    | OneRttWrite =>
        set_oneRttWriteHeaderCipher_ (Some headerCipher)
          (set_oneRttWriteCipher_ (Some aead) s)
    | ZeroRttRead =>
        set_zeroRttReadHeaderCipher_ (Some headerCipher)
          (set_zeroRttReadCipher_ (Some aead) s)
    end in
  set_handshakeEventAvailable_ true s1.

(** ** Writing to a crypto stream *)

(** Modelled from the spec: [getCryptoStream] comes from
    QuicStreamFunctions, which is missing.  It selects the crypto stream of
    the level; a level outside the recognised set is a defensive
    termination (7 (c)). *)
Definition getCryptoStream (level : LevelValue) : M EncryptionLevel :=
  match level with
  | Enumerator l => ret l
  | OutOfRange _ => fatal "Unhandled EncryptionLevel"
  end.

(** Modelled from the spec: [writeDataToQuicStream], from the same missing
    file, appends the bytes to the stream. *)
Definition writeDataToQuicStream (stream : EncryptionLevel)
    (data : list byte) : M unit :=
  modify (fun s =>
    set_conn_
      (mkConn (handshakeWriteCipher (conn_ s))
         (handshakeWriteHeaderCipher (conn_ s))
         (fun l => if EncryptionLevel_eqb l stream
                   then cryptoState (conn_ s) l ++ data
                   else cryptoState (conn_ s) l)) s).

Definition isEarlyData (level : LevelValue) : bool :=
  match level with
  | Enumerator EarlyData => true
  | _ => false
  end.

Definition writeDataToStream (encryptionLevel : LevelValue)
    (data : list byte) : M unit :=
  if isEarlyData encryptionLevel
  then fatal "Server cannot write early data"
  else cryptoStream <- getCryptoStream encryptionLevel ;;
       writeDataToQuicStream cryptoStream data.

(** ** The cipher getters *)

(** [if (error_) throw QuicTransportException(error_->first, error_->second)] *)
Definition throwIfError : M unit :=
  error <- gets error_ ;;
  match error with
  | Some e => throw (fst e, snd e)
  | None => ret tt
  end.

(** [return std::move(member)]: the caller gets the pointer, the member
    is left null. *)
Definition moveOut {A : Type} (member : State -> option A)
    (assign : option A -> State -> State) : M (option A) :=
  c <- gets member ;; modify (assign None) ;; ret c.

Definition getHandshakeReadCipher : M (option (Aead T)) :=
  throwIfError ;; moveOut handshakeReadCipher_ set_handshakeReadCipher_.

Definition getOneRttWriteCipher : M (option (Aead T)) :=
  throwIfError ;; moveOut oneRttWriteCipher_ set_oneRttWriteCipher_.

Definition getOneRttReadCipher : M (option (Aead T)) :=
  throwIfError ;; moveOut oneRttReadCipher_ set_oneRttReadCipher_.

Definition getZeroRttReadCipher : M (option (Aead T)) :=
  throwIfError ;; moveOut zeroRttReadCipher_ set_zeroRttReadCipher_.

Definition getOneRttReadHeaderCipher : M (option (PacketNumberCipher T)) :=
  throwIfError ;;
  moveOut oneRttReadHeaderCipher_ set_oneRttReadHeaderCipher_.

Definition getOneRttWriteHeaderCipher : M (option (PacketNumberCipher T)) :=
  throwIfError ;;
  moveOut oneRttWriteHeaderCipher_ set_oneRttWriteHeaderCipher_.

Definition getHandshakeReadHeaderCipher : M (option (PacketNumberCipher T)) :=
  throwIfError ;;
  moveOut handshakeReadHeaderCipher_ set_handshakeReadHeaderCipher_.

Definition getZeroRttReadHeaderCipher : M (option (PacketNumberCipher T)) :=
  throwIfError ;;
  moveOut zeroRttReadHeaderCipher_ set_zeroRttReadHeaderCipher_.

(** ** Applying a batch of engine actions *)

(** Modelled from the spec: [processCryptoActions] is defined in the
    missing subclass.  By 4.3 step 1 every action of the batch is applied
    in order through a fixed dispatch to the members of this class
    (install ciphers, write bytes, set the phase, error and done flags).
    A report of handshake success sets the done flag that
    [isHandshakeDone] reads (4.1, 8) and goes on to [onHandshakeDone],
    which, as defined in this file, marks the event. *)
Definition applyAction (a : Action) : M unit :=
  match a with
  | SecretAvailable kind secret => modify (computeCiphers kind secret)
  | WriteToSocket level data => writeDataToStream level data
  | ReportError message code => modify (onError (message, code))
  | ReportHandshakeSuccess =>
      modify (set_handshakeDone_ true) ;; modify onHandshakeDone
  | WaitForData => modify (set_waitForData_ true)
  | SetPhase p => modify (set_phase_ p)
  end.

Fixpoint processCryptoActions (actions : Actions) : M unit :=
  match actions with
  | [] => ret tt
  | a :: rest => applyAction a ;; processCryptoActions rest
  end.

(** ** The read buffers *)

Definition readBuf (b : ReadBufRef) (s : State) : list byte :=
  match b with
  | initialReadBuf => initialReadBuf_ s
  | handshakeReadBuf => handshakeReadBuf_ s
  | appDataReadBuf => appDataReadBuf_ s
  end.

Definition set_readBuf (b : ReadBufRef) (v : list byte) (s : State) : State :=
  match b with
  | initialReadBuf => set_initialReadBuf_ v s
  | handshakeReadBuf => set_handshakeReadBuf_ v s
  | appDataReadBuf => set_appDataReadBuf_ v s
  end.

(** [buf.append(std::move(data))] *)
Definition appendBuf (b : ReadBufRef) (data : list byte) : M unit :=
  modify (fun s => set_readBuf b (readBuf b s ++ data) s).

Definition getReadRecordLayerEncryptionLevel : M LevelValue :=
  gets (fun s => engineReadLevel E (engine_ s)).

(** Modelled from the spec: [processSocketData(buf)] hands the whole
    buffer to the engine, which takes a prefix of it, leaves the rest in
    the buffer, and yields actions that go through [startActions]. *)
Definition processSocketData (startActions : AsyncActions -> M unit)
    (b : ReadBufRef) : M unit :=
  contents <- gets (readBuf b) ;;
  st <- gets engine_ ;;
  let '(st', taken, actions) := engineSocketData E st contents in
  log (EngineRead b contents taken) ;;
  modify (set_readBuf b (skipn taken contents)) ;;
  modify (set_engine_ st') ;;
  startActions actions.

(** Modelled from the spec: [processPendingCryptoEvent()] resumes a
    deferred crypto event if the engine has one and says whether it did. *)
Definition processPendingCryptoEvent (startActions : AsyncActions -> M unit)
    : M bool :=
  st <- gets engine_ ;;
  match enginePendingCryptoEvent E st with
  | None => ret false
  | Some (st', actions) =>
      modify (set_engine_ st') ;; startActions actions ;; ret true
  end.

(** Modelled from the spec: [writeNewSessionTicketToCrypto(appToken)] hands
    the token to the engine. *)
Definition writeNewSessionTicketToCrypto (appToken : AppToken T) : M unit :=
  modify (fun s => set_engine_ (engineNewSessionTicket E appToken (engine_ s)) s).

(** Modelled from the spec: [initializeImpl(callback, validator)] stores
    the application callback and binds the engine to the validator. *)
Definition initializeImpl (callback : option (HandshakeCallback T))
    (validator : AppTokenValidator T) : M unit :=
  modify (set_callback_ callback) ;;
  modify (fun s => set_engine_ (engineInitialize E validator (engine_ s)) s).

(** ** The action dispatcher and the drain loop *)

(** [processActions], [processPendingEvents] (split at its [while]) and
    [startActions] call one another; each call spends one unit of fuel. *)
Fixpoint processActions (fuel : nat) (actions : Actions) {struct fuel}
    : M unit :=
  match fuel with
  | O => outOfFuel
  | S fuel' =>
      processCryptoActions actions ;;
      modify (set_actionGuard_ false) ;;
      callback <- gets callback_ ;;
      inHandshakeStack <- gets inHandshakeStack_ ;;
      handshakeEventAvailable <- gets handshakeEventAvailable_ ;;
      match callback with
      | Some cb =>
          if negb inHandshakeStack && handshakeEventAvailable
          then log (onCryptoEventAvailable cb)
          else ret tt
      | None => ret tt
      end ;;
      modify (set_handshakeEventAvailable_ false) ;;
      processPendingEvents fuel'
  end

with processPendingEvents (fuel : nat) {struct fuel} : M unit :=
  match fuel with
  | O => outOfFuel
  | S fuel' =>
      inProcessPendingEvents <- gets inProcessPendingEvents_ ;;
      if inProcessPendingEvents then ret tt
      else
        modify (set_inProcessPendingEvents_ true) ;;
        scope_exit (set_inProcessPendingEvents_ false)
          (pendingEventsLoop fuel')
  end

with pendingEventsLoop (fuel : nat) {struct fuel} : M unit :=
  match fuel with
  | O => outOfFuel
  | S fuel' =>
      actionGuard <- gets actionGuard_ ;;
      error <- gets error_ ;;
      if negb actionGuard && negb (isSome error) then
        modify (set_actionGuard_ true) ;;
        waitForData <- gets waitForData_ ;;
        if negb waitForData then
          level <- getReadRecordLayerEncryptionLevel ;;
          match level with
          | Enumerator Initial =>
              processSocketData (startActions fuel') initialReadBuf
          | Enumerator Handshake =>
              processSocketData (startActions fuel') handshakeReadBuf
          | Enumerator EarlyData
          | Enumerator AppData =>
              processSocketData (startActions fuel') appDataReadBuf
          | OutOfRange _ => fatal "Unhandled EncryptionLevel"
          end ;;
          pendingEventsLoop fuel'
        else
          resumed <- processPendingCryptoEvent (startActions fuel') ;;
          if negb resumed
          then modify (set_actionGuard_ false)
          else pendingEventsLoop fuel'
      else ret tt
  end

with startActions (fuel : nat) (actions : AsyncActions) {struct fuel}
    : M unit :=
  match fuel with
  | O => outOfFuel
  | S fuel' =>
      match actions with
      | FutureActions futureActions =>
          modify (fun s => set_futures_ (futures_ s ++ [futureActions]) s)
      | ImmediateActions immediateActions =>
          processActions fuel' immediateActions
      end
  end.

Definition addProcessingActions (fuel : nat) (actions : AsyncActions)
    : M unit :=
  actionGuard <- gets actionGuard_ ;;
  if actionGuard then
    modify (onError ("Processing action while pending", INTERNAL_ERROR))
  else
    modify (set_actionGuard_ true) ;;
    startActions fuel actions.

(** Modelled from the spec: [processAccept()] starts the engine's first
    processing step with the stored transport parameters and passes what
    it yields to the action dispatcher. *)
Definition processAccept (fuel : nat) : M unit :=
  st <- gets engine_ ;;
  transportParams <- gets transportParams_ ;;
  let '(st', actions) := engineAccept E st transportParams in
  modify (set_engine_ st') ;;
  addProcessingActions fuel actions.

(** The executor runs the continuation of the oldest pending future. *)
Definition fulfilFuture (fuel : nat) : M unit :=
  futures <- gets futures_ ;;
  match futures with
  | [] => ret tt
  | batch :: rest => modify (set_futures_ rest) ;; processActions fuel batch
  end.

(** ** The entry points of the transport *)

Definition accept (fuel : nat)
    (transportParams : option (ServerTransportParametersExtension T))
    : M unit :=
  scope_exit (set_inHandshakeStack_ false)
    (modify (set_transportParams_ transportParams) ;;
     modify (set_inHandshakeStack_ true) ;;
     processAccept fuel).

Definition initialize (executor : option (Executor T))
    (callback : option (HandshakeCallback T))
    (validator : AppTokenValidator T) : M unit :=
  modify (set_executor_ executor) ;;
  initializeImpl callback validator.

Definition doHandshake (fuel : nat) (data : list byte)
    (encryptionLevel : LevelValue) : M unit :=
  scope_exit (set_inHandshakeStack_ false)
    (modify (set_inHandshakeStack_ true) ;;
     modify (set_waitForData_ false) ;;
     match encryptionLevel with
     | Enumerator Initial => appendBuf initialReadBuf data
     | Enumerator Handshake => appendBuf handshakeReadBuf data
     | Enumerator EarlyData
     | Enumerator AppData => appendBuf appDataReadBuf data
     | OutOfRange _ => fatal "Unhandled EncryptionLevel"
     end ;;
     processPendingEvents fuel ;;
     throwIfError).

Definition writeNewSessionTicket (fuel : nat) (appToken : AppToken T)
    : M unit :=
  scope_exit (set_inHandshakeStack_ false)
    (modify (set_inHandshakeStack_ true) ;;
     writeNewSessionTicketToCrypto appToken ;;
     processPendingEvents fuel ;;
     throwIfError).

(** ** Internal processing as a sequence of steps *)

(** Everything the action dispatcher and the drain loop do to the object,
    one change at a time.  An engine read logs what was handed over and
    trims the buffer in one step; the callback step carries the test of
    [processActions]. *)
Inductive InternalStep : State -> State -> Prop :=
  | step_actionGuard (v : bool) (s : State) :
      InternalStep s (set_actionGuard_ v s)
  | step_inProcessPendingEvents (v : bool) (s : State) :
      InternalStep s (set_inProcessPendingEvents_ v s)
  | step_future (batch : Actions) (s : State) :
      InternalStep s (set_futures_ (futures_ s ++ [batch]) s)
  | step_engine (st : EngineState E) (s : State) :
      InternalStep s (set_engine_ st s)
  | step_read (b : ReadBufRef) (taken : nat) (s : State) :
      InternalStep s
        (set_readBuf b (skipn taken (readBuf b s))
           (set_events_ (events_ s ++ [EngineRead b (readBuf b s) taken]) s))
  | step_computeCiphers (kind : CipherKind) (secret : list byte) (s : State) :
      InternalStep s (computeCiphers kind secret s)
  | step_write (stream : EncryptionLevel) (data : list byte) (s s' : State) :
      writeDataToQuicStream stream data s = Returned tt s' ->
      InternalStep s s'
  | step_onError (e : Error) (s : State) :
      InternalStep s (onError e s)
  | step_onHandshakeDone (s : State) :
      InternalStep s (onHandshakeDone s)
  | step_waitForData (s : State) :
      InternalStep s (set_waitForData_ true s)
  | step_phase (p : Phase T) (s : State) :
      InternalStep s (set_phase_ p s)
  | step_notify (cb : HandshakeCallback T) (s : State) :
      callback_ s = Some cb ->
      inHandshakeStack_ s = false ->
      handshakeEventAvailable_ s = true ->
      InternalStep s
        (set_events_ (events_ s ++ [onCryptoEventAvailable cb]) s)
  | step_clearEvent (s : State) :
      InternalStep s (set_handshakeEventAvailable_ false s)
  | step_done (s : State) :
      InternalStep s (set_handshakeDone_ true s).

Inductive Steps : State -> State -> Prop :=
  | steps_refl (s : State) : Steps s s
  | steps_cons (s s1 s2 : State) :
      InternalStep s s1 -> Steps s1 s2 -> Steps s s2.

(** What holds of the state in which a call stopped, however it stopped. *)
Definition post {A : Type} (o : Outcome A) (Q : State -> Prop) : Prop :=
  match o with
  | Returned _ s | Thrown _ s | OutOfFuel s => Q s
  | Fatal _ => True
  end.

(** A computation that changes the object by internal steps only. *)
Definition internal {A : Type} (c : M A) : Prop :=
  forall s, post (c s) (Steps s).

(** ** Observations used by the properties *)

Definition isNotification (ev : Event) : bool :=
  match ev with
  | onCryptoEventAvailable _ => true
  | EngineRead _ _ _ => false
  end.

(** How often the application callback has been invoked. *)
Definition notifications (s : State) : nat :=
  List.length (filter isNotification (events_ s)).

(** The test in [processActions] that guards the callback. *)
Definition shouldNotify (s : State) : bool :=
  isSome (callback_ s) && negb (inHandshakeStack_ s)
  && handshakeEventAvailable_ s.

(** The bytes the engine has taken out of buffer [b] so far, in the order
    it took them. *)
Definition engineTook (b : ReadBufRef) (evs : list Event) : list byte :=
  flat_map
    (fun ev =>
       match ev with
       | EngineRead b' contents taken =>
           if ReadBufRef_eqb b b' then firstn taken contents else []
       | onCryptoEventAvailable _ => []
       end) evs.

(** Everything that has passed through buffer [b]: what the engine took,
    followed by what is still waiting. *)
Definition presented (b : ReadBufRef) (s : State) : list byte :=
  engineTook b (events_ s) ++ readBuf b s.

(** The buffer the switch of [doHandshake] selects for a level. *)
Definition levelBuf (l : EncryptionLevel) : ReadBufRef :=
  match l with
  | Initial => initialReadBuf
  | Handshake => handshakeReadBuf
  | EarlyData | AppData => appDataReadBuf
  end.

(** Completions of engine actions, one after the other. *)
Fixpoint completions (batches : list (nat * Actions)) : M unit :=
  match batches with
  | [] => ret tt
  | (fuel, batch) :: rest => processActions fuel batch ;; completions rest
  end.

(** A getter with move-out semantics over the slot [member]: without an
    error it returns what the slot holds and leaves the slot empty, so
    asking again returns nothing. *)
Definition singleRetrieval {A : Type} (get : M (option A))
    (member : State -> option A) (assign : option A -> State -> State)
    : Prop :=
  forall s,
    error_ s = None ->
    get s = Returned (member s) (assign None s) /\
    member (assign None s) = None /\
    get (assign None s) = Returned None (assign None s).

(** A top-level call leaves [inHandshakeStack_] cleared when it exits;
    when the fuel ran out inside it, the scope has not been left. *)
Definition exits (s2 s' : State) : Prop :=
  s' = s2 \/ s' = set_inHandshakeStack_ false s2.

(** The object with the application callback detached and the callback
    invocations struck from the log: what is left when the application is
    disregarded. *)
Definition unnotified (s : State) : State :=
  set_events_ (filter (fun ev => negb (isNotification ev)) (events_ s))
    (set_callback_ None s).

Definition mapOutcome {A : Type} (f : State -> State) (o : Outcome A)
    : Outcome A :=
  match o with
  | Returned a s => Returned a (f s)
  | Thrown e s => Thrown e (f s)
  | Fatal m => Fatal m
  | OutOfFuel s => OutOfFuel (f s)
  end.

(** A computation whose course does not depend on the application
    callback. *)
Definition oblivious {A : Type} (c : M A) : Prop :=
  forall s, c (unnotified s) = mapOutcome unnotified (c s).

(** The object right after [processActions] has applied a batch, released
    the guard, run the callback test and cleared the event flag, that is,
    as it enters [processPendingEvents]. *)
Definition completed (s1 : State) : State :=
  set_handshakeEventAvailable_ false
    match callback_ s1 with
    | Some cb =>
        if shouldNotify s1
        then set_events_ (events_ s1 ++ [onCryptoEventAvailable cb])
               (set_actionGuard_ false s1)
        else set_actionGuard_ false s1
    | None => set_actionGuard_ false s1
    end.

(** At most one deferred batch is pending, and only under the guard. *)
Definition oneInFlight (s : State) : Prop :=
  (actionGuard_ s = false -> futures_ s = []) /\
  List.length (futures_ s) <= 1.

(** ** Further observations *)

(** What holds of the state a call left behind when it came back to its
    caller, by return or by exception. *)
Definition finished {A : Type} (o : Outcome A) (Q : State -> Prop) : Prop :=
  match o with
  | Returned _ s | Thrown _ s => Q s
  | Fatal _ | OutOfFuel _ => True
  end.

(** A computation from which no exception escapes. *)
Definition nothrow {A : Type} (c : M A) : Prop :=
  forall s, match c s with Thrown _ _ => False | _ => True end.

(** The eight cipher members the getters hand out. *)
Definition privateSlots (s : State) :=
  (handshakeReadCipher_ s, oneRttWriteCipher_ s, oneRttReadCipher_ s,
   zeroRttReadCipher_ s, oneRttReadHeaderCipher_ s,
   oneRttWriteHeaderCipher_ s, handshakeReadHeaderCipher_ s,
   zeroRttReadHeaderCipher_ s).

(** The actions whose handler sets [handshakeEventAvailable_]:
    [computeCiphers], [onError] and [onHandshakeDone] all do. *)
Definition raisesEvent (a : Action) : bool :=
  match a with
  | SecretAvailable _ _ | ReportError _ _ | ReportHandshakeSuccess => true
  | WriteToSocket _ _ | WaitForData | SetPhase _ => false
  end.

(** Why the drain loop may stop: an action is in flight, an error is
    recorded, or the engine waits for data and has nothing to resume. *)
Definition drained (s : State) : Prop :=
  actionGuard_ s = true \/
  error_ s <> None \/
  (waitForData_ s = true /\ actionGuard_ s = false /\
   enginePendingCryptoEvent E (engine_ s) = None).

(** A computation that ends the way the fallible entry points do: it
    returns only with no error recorded, and what it throws is the
    recorded error. *)
Definition checked (c : M unit) : Prop :=
  forall s,
    match c s with
    | Returned _ s' => error_ s' = None
    | Thrown e s' => error_ s' = Some e
    | Fatal _ | OutOfFuel _ => True
    end.

(** A computation that comes back with [inProcessPendingEvents_] as it
    found it. *)
Definition restores {A : Type} (c : M A) : Prop :=
  forall s,
    finished (c s)
      (fun s' => inProcessPendingEvents_ s' = inProcessPendingEvents_ s).

(** The read buffers handed to the engine so far: the log without the
    callback invocations. *)
Definition engineReads (s : State) : list Event :=
  filter (fun ev => negb (isNotification ev)) (events_ s).

(** From [s] to [s'] an error has stayed recorded, nothing more has been
    handed to the engine and the read buffers are as they were. *)
Definition errorHeld (s s' : State) : Prop :=
  error_ s' <> None /\
  engineReads s' = engineReads s /\
  (forall b, readBuf b s' = readBuf b s).

End Model.

Arguments SecretAvailable {T} kind secret.
Arguments WriteToSocket {T} level data.
Arguments ReportError {T} message code.
Arguments ReportHandshakeSuccess {T}.
Arguments WaitForData {T}.
Arguments SetPhase {T} p.
Arguments EngineRead {T} buf contents taken.
Arguments onCryptoEventAvailable {T} cb.
Arguments mkConn {T} handshakeWriteCipher handshakeWriteHeaderCipher cryptoState.
Arguments newServerHandshake {T E} conn phase0 engine0.
Arguments Returned {T E A} a s.
Arguments Thrown {T E A} e s.
Arguments Fatal {T E A} message.
Arguments OutOfFuel {T E A} s.
Arguments ret {T E A} a s.
Arguments fatal {T E A} message s.
Arguments outOfFuel {T E A} s.
Arguments throw {T E A} e s.
Arguments throwIfError {T E} s.
Arguments getHandshakeReadCipher {T E} s.
Arguments getOneRttWriteCipher {T E} s.
Arguments getOneRttReadCipher {T E} s.
Arguments getZeroRttReadCipher {T E} s.
Arguments getOneRttReadHeaderCipher {T E} s.
Arguments getOneRttWriteHeaderCipher {T E} s.
Arguments getHandshakeReadHeaderCipher {T E} s.
Arguments getZeroRttReadHeaderCipher {T E} s.
Arguments getReadRecordLayerEncryptionLevel {T E} s.
Arguments unnotified {T E} s.
Arguments oneInFlight {T E} s.
Arguments drained {T E} s.
Arguments engineReads {T E} s.
Arguments errorHeld {T E} s s'.
Arguments checked {T E} c.
Arguments privateSlots {T E} s.
Arguments raisesEvent {T} a.
Arguments completed {T E} s1.

Notation "x <- c ;; k" := (bind c (fun x => k))
  (at level 61, c at next level, right associativity).
Notation "c ;; k" := (bind c (fun _ => k))
  (at level 61, right associativity).

(** ** A scripted engine, to run the code on concrete inputs *)

Module Scripted.

Definition types : ExternalTypes := {|
  Aead := list byte;
  PacketNumberCipher := list byte;
  Phase := nat;
  ClientTransportParameters := nat;
  ServerTransportParametersExtension := option nat;
  Executor := unit;
  HandshakeCallback := nat;
  AppToken := list byte;
  AppTokenValidator := unit
|}.

(** One scripted answer to [processSocketData]: the level the engine waits
    for, how many bytes it takes, and what it yields. *)
Definition Reply : Type := (LevelValue * nat * AsyncActions types)%type.

(** The script still to be played and the session tickets waiting to be
    written. *)
Definition EngineSt : Type := (list Reply * list (list byte))%type.

Definition engine : Engine types := {|
  EngineState := EngineSt;
  engineReadLevel := fun st =>
    match fst st with
    | [] => Enumerator Initial
    | (level, _, _) :: _ => level
    end;
  engineSocketData := fun st _ =>
    match fst st with
    | [] => (st, 0, ImmediateActions [WaitForData])
    | (_, taken, actions) :: rest => ((rest, snd st), taken, actions)
    end;
  enginePendingCryptoEvent := fun st =>
    match snd st with
    | [] => None
    | ticket :: rest =>
        Some ((fst st, rest),
              ImmediateActions [WriteToSocket (Enumerator AppData) ticket])
    end;
  engineAccept := fun st _ => (st, ImmediateActions []);
  engineNewSessionTicket := fun token st => (fst st, snd st ++ [token]);
  engineInitialize := fun _ st => st;
  buildCiphers := fun secret => (secret, rev secret);
  holderClientTransportParams := fun holder => holder
|}.

Definition conn0 : QuicConnectionStateBase types :=
  mkConn None None (fun _ => []).

(** A fresh handshake object over a given script. *)
Definition fresh (script : list Reply) : State engine :=
  newServerHandshake (E:=engine) conn0 0 (script, []).

(** The same with an application callback registered. *)
Definition listening (script : list Reply) : State engine :=
  set_callback_ (E:=engine) (Some 7) (fresh script).

Definition hello : list byte := ["h"; "e"; "l"; "l"; "o"]%byte.
Definition fin : list byte := ["f"; "i"; "n"]%byte.
Definition secret1 : list byte := ["k"; "1"]%byte.
Definition boom : Error := ("boom", OtherTransportError 300).

(** The state in which a call stopped. *)
Definition after (c : M engine unit) (s : State engine) : State engine :=
  match c s with
  | Returned _ s' | Thrown _ s' | OutOfFuel s' => s'
  | Fatal _ => s
  end.

(** A feed whose processing the engine defers: an action stays in flight. *)
Definition inflight : State engine :=
  Eval vm_compute in
  after (doHandshake 20 hello (Enumerator Initial))
    (listening
       [(Enumerator Initial, 5,
         FutureActions [SecretAvailable OneRttWrite secret1])]).

(** A feed on which the engine installs the handshake read cipher and then
    reports an error. *)
Definition errored : State engine :=
  Eval vm_compute in
  after (doHandshake 20 hello (Enumerator Initial))
    (listening
       [(Enumerator Initial, 5,
         ImmediateActions
           [SecretAvailable HandshakeRead secret1;
            ReportError "boom" (OtherTransportError 300)])]).

(** The two-flight handshake of the spec's scenarios: the Initial flight is
    taken at once, the Handshake flight is answered by a deferred batch
    that installs the 1-RTT write cipher and reports completion. *)
Definition twoFlights : list Reply :=
  [ (Enumerator Initial, 5, ImmediateActions []);
    (Enumerator Handshake, 0, ImmediateActions [WaitForData]);
    (Enumerator Handshake, 3,
     FutureActions
       [SecretAvailable OneRttWrite secret1; ReportHandshakeSuccess]) ].

(** The object after the drain has run dry on an empty script: the engine
    has asked for more data and has nothing to resume. *)
Definition blocked : State engine :=
  Eval vm_compute in after (pendingEventsLoop 5) (fresh []).

Definition pendingError : Error :=
  ("Processing action while pending", INTERNAL_ERROR).

(** A feed whose batch the engine defers, then an [accept] while that
    batch is pending: the internal error is recorded and the batch, which
    installs the 1-RTT write cipher and reports "boom", is still to
    come. *)
Definition overlapped : State engine :=
  Eval vm_compute in
  after (doHandshake 20 hello (Enumerator Initial) ;; accept 5 None)
    (listening
       [(Enumerator Initial, 5,
         FutureActions
           [SecretAvailable OneRttWrite secret1;
            ReportError "boom" (OtherTransportError 300)])]).

(** The same object once the pending batch has completed. *)
Definition superseded : State engine :=
  Eval vm_compute in after (fulfilFuture 5) overlapped.

End Scripted.

(** * Properties *)

Section Properties.

Variable T : ExternalTypes.
Variable E : Engine T.


(** ** Reasoning rules *)

Lemma steps_one (s s' : State E) : InternalStep s s' -> Steps s s'.
Proof. intro H. eapply steps_cons; [exact H | apply steps_refl]. Qed.

Lemma steps_trans (s1 s2 s3 : State E) :
  Steps s1 s2 -> Steps s2 s3 -> Steps s1 s3.
Proof.
  induction 1 as [|s s1 s2 Hstep _ IH]; intro H23; [exact H23|].
  eapply steps_cons; [exact Hstep | exact (IH H23)].
Qed.

Lemma steps_invariant (I : State E -> Prop) :
  (forall s s', InternalStep s s' -> I s -> I s') ->
  forall s s', Steps s s' -> I s -> I s'.
Proof.
  intros Hstep s s' H. induction H as [|s s1 s2 H1 _ IH]; intro Hs.
  - exact Hs.
  - apply IH. exact (Hstep _ _ H1 Hs).
Qed.

Lemma post_weaken {A : Type} (o : Outcome E A) (P Q : State E -> Prop) :
  (forall s, P s -> Q s) -> post o P -> post o Q.
Proof. destruct o; simpl; auto. Qed.

Lemma internal_ret {A : Type} (a : A) : internal (ret (E:=E) a).
Proof. intro s. simpl. apply steps_refl. Qed.

Lemma internal_gets {A : Type} (f : State E -> A) : internal (gets f).
Proof. intro s. simpl. apply steps_refl. Qed.

Lemma internal_fatal {A : Type} (m : string) : internal (fatal (E:=E) (A:=A) m).
Proof. intro s. exact I. Qed.

Lemma internal_outOfFuel {A : Type} : internal (outOfFuel (E:=E) (A:=A)).
Proof. intro s. simpl. apply steps_refl. Qed.

Lemma internal_modify (f : State E -> State E) :
  (forall s, InternalStep s (f s)) -> internal (modify f).
Proof. intros H s. simpl. apply steps_one, H. Qed.

Lemma internal_bind {A B : Type} (c : M E A) (k : A -> M E B) :
  internal c -> (forall a, internal (k a)) -> internal (bind c k).
Proof.
  intros Hc Hk s. unfold bind. specialize (Hc s).
  destruct (c s) as [a s'|e s'|m|s']; simpl in *; auto.
  specialize (Hk a s').
  eapply post_weaken; [|exact Hk].
  intros s2 H2. eapply steps_trans; eassumption.
Qed.

Lemma internal_scope_exit {A : Type} (f : State E -> State E) (c : M E A) :
  (forall s, InternalStep s (f s)) -> internal c -> internal (scope_exit f c).
Proof.
  intros Hf Hc s. unfold scope_exit. specialize (Hc s).
  destruct (c s) as [a s'|e s'|m|s']; simpl in *; auto;
    (eapply steps_trans; [exact Hc | apply steps_one, Hf]).
Qed.

Lemma internal_writeDataToStream (level : LevelValue) (data : list byte) :
  internal (writeDataToStream (E:=E) level data).
Proof.
  intro s. unfold writeDataToStream.
  destruct (isEarlyData level); [exact I|].
  destruct level as [l|raw]; simpl; [|exact I].
  apply steps_one. eapply step_write. reflexivity.
Qed.

Lemma internal_applyAction (a : Action T) : internal (applyAction (E:=E) a).
Proof.
  destruct a; simpl.
  - apply internal_modify. intro s. apply step_computeCiphers.
  - apply internal_writeDataToStream.
  - apply internal_modify. intro s. apply step_onError.
  - apply internal_bind; [|intros _].
    + apply internal_modify. intro s. apply step_done.
    + apply internal_modify. intro s. apply step_onHandshakeDone.
  - apply internal_modify. intro s. apply step_waitForData.
  - apply internal_modify. intro s. apply step_phase.
Qed.

Lemma internal_processCryptoActions (actions : Actions T) :
  internal (processCryptoActions (E:=E) actions).
Proof.
  induction actions as [|a rest IH]; simpl.
  - apply internal_ret.
  - apply internal_bind; [apply internal_applyAction | intros _; exact IH].
Qed.

Lemma internal_processSocketData (k : AsyncActions T -> M E unit)
    (b : ReadBufRef) :
  (forall a, internal (k a)) -> internal (processSocketData k b).
Proof.
  intros Hk s. unfold processSocketData, bind, gets, log, modify. simpl.
  destruct (engineSocketData E (engine_ s) (readBuf b s))
    as [[st' taken] actions] eqn:He. simpl.
  eapply post_weaken; [|apply Hk].
  intros s2 H2.
  eapply steps_cons; [apply (step_read b taken s)|].
  eapply steps_cons; [apply (step_engine st')|].
  exact H2.
Qed.

(** ** The dispatcher and the drain loop make internal steps only *)

Lemma internal_notify (k : M E unit) :
  internal k ->
  internal
    (callback <- gets (callback_ (E:=E)) ;;
     inHandshakeStack <- gets (inHandshakeStack_ (E:=E)) ;;
     handshakeEventAvailable <- gets (handshakeEventAvailable_ (E:=E)) ;;
     match callback with
     | Some cb =>
         if negb inHandshakeStack && handshakeEventAvailable
         then log (onCryptoEventAvailable cb)
         else ret tt
     | None => ret tt
     end ;;
     k).
Proof.
  intros Hk s. unfold bind at 1 2 3. unfold gets. simpl.
  destruct (callback_ s) as [cb|] eqn:Hcb.
  - destruct (inHandshakeStack_ s) eqn:Hin; simpl.
    + unfold bind, ret. apply Hk.
    + destruct (handshakeEventAvailable_ s) eqn:Hav; simpl.
      * unfold bind, log, modify.
        eapply post_weaken; [|apply Hk].
        intros s2 H2. eapply steps_cons; [|exact H2].
        apply step_notify; assumption.
      * unfold bind, ret. apply Hk.
  - unfold bind, ret. apply Hk.
Qed.

Lemma internal_run (fuel : nat) :
  (forall actions, internal (processActions (E:=E) fuel actions)) /\
  internal (processPendingEvents (E:=E) fuel) /\
  internal (pendingEventsLoop (E:=E) fuel) /\
  (forall actions, internal (startActions (E:=E) fuel actions)).
Proof.
  induction fuel as [|fuel (IHa & IHp & IHl & IHs)].
  - repeat split; intros; apply internal_outOfFuel.
  - repeat split.
    + intro actions. simpl.
      apply internal_bind; [apply internal_processCryptoActions | intros _].
      apply internal_bind;
        [apply internal_modify; intro; apply step_actionGuard | intros _].
      apply internal_notify.
      apply internal_bind;
        [apply internal_modify; intro; apply step_clearEvent | intros _].
      exact IHp.
    + simpl. apply internal_bind; [apply internal_gets | intros [|]].
      * apply internal_ret.
      * apply internal_bind;
          [apply internal_modify; intro; apply step_inProcessPendingEvents
          | intros _].
        apply internal_scope_exit;
          [intro; apply step_inProcessPendingEvents | exact IHl].
    + simpl. apply internal_bind; [apply internal_gets | intros guard].
      apply internal_bind; [apply internal_gets | intros error].
      destruct (negb guard && negb (isSome error)); [|apply internal_ret].
      apply internal_bind;
        [apply internal_modify; intro; apply step_actionGuard | intros _].
      apply internal_bind; [apply internal_gets | intros wait].
      destruct (negb wait).
      * apply internal_bind; [apply internal_gets | intros level].
        apply internal_bind; [|intros _; exact IHl].
        destruct level as [[| | |]|raw];
          try (apply internal_processSocketData; exact IHs).
        apply internal_fatal.
      * apply internal_bind.
        -- unfold processPendingCryptoEvent.
           apply internal_bind; [apply internal_gets | intros st].
           destruct (enginePendingCryptoEvent E st) as [[st' actions]|].
           ++ apply internal_bind;
                [apply internal_modify; intro; apply step_engine | intros _].
              apply internal_bind; [apply IHs | intros _; apply internal_ret].
           ++ apply internal_ret.
        -- intros resumed. destruct (negb resumed); [|exact IHl].
           apply internal_modify; intro; apply step_actionGuard.
    + intros [batch|batch]; simpl.
      * apply IHa.
      * apply internal_modify. intro s. apply step_future.
Qed.

(** ** The error check shared by the fallible entry points *)

Lemma throwIfError_set (s : State E) (e : Error) :
  error_ s = Some e -> throwIfError s = Thrown e s.
Proof.
  intro H. unfold throwIfError, bind, gets, throw, ret. rewrite H.
  destruct e; reflexivity.
Qed.

Lemma throwIfError_clear (s : State E) :
  error_ s = None -> throwIfError s = Returned tt s.
Proof.
  intro H. unfold throwIfError, bind, gets, throw, ret. rewrite H.
  reflexivity.
Qed.

Lemma getter_throws {A : Type} (member : State E -> option A)
    (assign : option A -> State E -> State E) (s : State E) (e : Error) :
  error_ s = Some e ->
  (throwIfError ;; moveOut member assign) s = Thrown e s.
Proof. intro H. unfold bind. rewrite (throwIfError_set _ H). reflexivity. Qed.

Lemma getter_moves {A : Type} (member : State E -> option A)
    (assign : option A -> State E -> State E) (s : State E) :
  error_ s = None ->
  (throwIfError ;; moveOut member assign) s =
    Returned (member s) (assign None s).
Proof. intro H. unfold bind. rewrite (throwIfError_clear _ H). reflexivity. Qed.

Lemma pendingEventsLoop_error (fuel : nat) (s : State E) (e : Error) :
  error_ s = Some e -> pendingEventsLoop (S fuel) s = Returned tt s.
Proof.
  intro H. simpl. unfold bind, gets. rewrite H. simpl.
  rewrite andb_false_r. reflexivity.
Qed.

Lemma pendingEventsLoop_guarded (fuel : nat) (s : State E) :
  actionGuard_ s = true -> pendingEventsLoop (S fuel) s = Returned tt s.
Proof. intro H. simpl. unfold bind, gets. rewrite H. reflexivity. Qed.

(** With a terminal error recorded, or with an action in flight, the drain
    loop is not entered and [processPendingEvents] gives the object back as
    it was. *)
Lemma processPendingEvents_idle (fuel : nat) (s : State E) :
  actionGuard_ s = true \/ error_ s <> None ->
  processPendingEvents (S (S fuel)) s = Returned tt s.
Proof.
  intro H.
  assert (Hloop : forall s1 : State E,
            actionGuard_ s1 = actionGuard_ s -> error_ s1 = error_ s ->
            pendingEventsLoop (S fuel) s1 = Returned tt s1).
  { intros s1 Hg He. destruct H as [H|H].
    - apply pendingEventsLoop_guarded. congruence.
    - destruct (error_ s) as [e|] eqn:Hs; [|congruence].
      eapply pendingEventsLoop_error. eassumption. }
  change (processPendingEvents (S (S fuel)) s) with
    ((inProcessPendingEvents <- gets (inProcessPendingEvents_ (E:=E)) ;;
      if inProcessPendingEvents then ret tt
      else modify (set_inProcessPendingEvents_ true) ;;
           scope_exit (set_inProcessPendingEvents_ false)
             (pendingEventsLoop (S fuel))) s).
  unfold bind at 1. unfold gets.
  destruct (inProcessPendingEvents_ s) eqn:Hin; [reflexivity|].
  unfold bind, modify, scope_exit.
  rewrite Hloop by reflexivity.
  destruct s; simpl in *; subst; reflexivity.
Qed.


(** ** C4 *)

Lemma moveOut_singleRetrieval {A : Type} (member : State E -> option A)
    (assign : option A -> State E -> State E) :
  (forall v s, member (assign v s) = v) ->
  (forall v s, error_ (assign v s) = error_ s) ->
  (forall s, assign None (assign None s) = assign None s) ->
  singleRetrieval (throwIfError ;; moveOut member assign) member assign.
Proof.
  intros Hget Herr Hidem s Hs. split; [|split].
  - apply getter_moves. exact Hs.
  - apply Hget.
  - rewrite getter_moves by (rewrite Herr; exact Hs).
    rewrite Hget, Hidem. reflexivity.
Qed.

(** C4. Each of the eight cipher getters moves its slot out: with no
    terminal error it returns the slot's contents and leaves the slot
    empty, so a second call returns nothing; on a fresh object, where no
    cipher was ever installed, every getter returns nothing and no
    error. *)
Theorem cipher_getters_move_out :
  (singleRetrieval (E:=E) getHandshakeReadCipher
     (handshakeReadCipher_ (E:=E)) (set_handshakeReadCipher_ (E:=E)) /\
   singleRetrieval (E:=E) getOneRttWriteCipher
     (oneRttWriteCipher_ (E:=E)) (set_oneRttWriteCipher_ (E:=E)) /\
   singleRetrieval (E:=E) getOneRttReadCipher
     (oneRttReadCipher_ (E:=E)) (set_oneRttReadCipher_ (E:=E)) /\
   singleRetrieval (E:=E) getZeroRttReadCipher
     (zeroRttReadCipher_ (E:=E)) (set_zeroRttReadCipher_ (E:=E)) /\
   singleRetrieval (E:=E) getOneRttReadHeaderCipher
     (oneRttReadHeaderCipher_ (E:=E)) (set_oneRttReadHeaderCipher_ (E:=E)) /\
   singleRetrieval (E:=E) getOneRttWriteHeaderCipher
     (oneRttWriteHeaderCipher_ (E:=E)) (set_oneRttWriteHeaderCipher_ (E:=E)) /\
   singleRetrieval (E:=E) getHandshakeReadHeaderCipher
     (handshakeReadHeaderCipher_ (E:=E))
     (set_handshakeReadHeaderCipher_ (E:=E)) /\
   singleRetrieval (E:=E) getZeroRttReadHeaderCipher
     (zeroRttReadHeaderCipher_ (E:=E))
     (set_zeroRttReadHeaderCipher_ (E:=E))) /\
  (forall conn phase0 engine0,
     let s0 := newServerHandshake (E:=E) conn phase0 engine0 in
     getHandshakeReadCipher s0 = Returned None s0 /\
     getOneRttWriteCipher s0 = Returned None s0 /\
     getOneRttReadCipher s0 = Returned None s0 /\
     getZeroRttReadCipher s0 = Returned None s0 /\
     getOneRttReadHeaderCipher s0 = Returned None s0 /\
     getOneRttWriteHeaderCipher s0 = Returned None s0 /\
     getHandshakeReadHeaderCipher s0 = Returned None s0 /\
     getZeroRttReadHeaderCipher s0 = Returned None s0).
Proof.
  split.
  - repeat apply conj; apply moveOut_singleRetrieval; intros; reflexivity.
  - intros conn phase0 engine0 s0. repeat split; reflexivity.
Qed.

(** ** C9 *)

(** C9. [writeDataToStream] appends the bytes to the crypto stream of the
    level, and to no other stream, for each level other than EarlyData;
    for EarlyData the [CHECK] stops the process. *)
Theorem writeDataToStream_levels (data : list byte) (s : State E) :
  (forall l,
     l <> EarlyData ->
     exists s',
       writeDataToStream (Enumerator l) data s = Returned tt s' /\
       cryptoState (conn_ s') l = cryptoState (conn_ s) l ++ data /\
       (forall l', l' <> l ->
          cryptoState (conn_ s') l' = cryptoState (conn_ s) l') /\
       handshakeWriteCipher (conn_ s') = handshakeWriteCipher (conn_ s) /\
       handshakeWriteHeaderCipher (conn_ s') =
         handshakeWriteHeaderCipher (conn_ s) /\
       events_ s' = events_ s /\ error_ s' = error_ s) /\
  writeDataToStream (Enumerator EarlyData) data s =
    Fatal "Server cannot write early data".
Proof.
  split; [|reflexivity].
  intros l Hl.
  destruct l; try congruence;
    (eexists; split; [reflexivity|]; simpl; repeat apply conj;
     try reflexivity; intros l' Hl'; destruct l'; try congruence;
     reflexivity).
Qed.

(** ** What the entry points do around the internal steps *)

Lemma internal_processActions (fuel : nat) (actions : Actions T) :
  internal (processActions (E:=E) fuel actions).
Proof. apply (internal_run fuel). Qed.

Lemma internal_processPendingEvents (fuel : nat) :
  internal (processPendingEvents (E:=E) fuel).
Proof. apply (internal_run fuel). Qed.

Lemma internal_startActions (fuel : nat) (actions : AsyncActions T) :
  internal (startActions (E:=E) fuel actions).
Proof. apply (internal_run fuel). Qed.

Lemma internal_addProcessingActions (fuel : nat) (actions : AsyncActions T) :
  internal (addProcessingActions (E:=E) fuel actions).
Proof.
  unfold addProcessingActions.
  apply internal_bind; [apply internal_gets | intros [|]].
  - apply internal_modify. intro s. apply step_onError.
  - apply internal_bind;
      [apply internal_modify; intro; apply step_actionGuard | intros _].
    apply internal_startActions.
Qed.

Lemma internal_processAccept (fuel : nat) :
  internal (processAccept (E:=E) fuel).
Proof.
  unfold processAccept.
  apply internal_bind; [apply internal_gets | intros st].
  apply internal_bind; [apply internal_gets | intros tp].
  destruct (engineAccept E st tp) as [st' actions].
  apply internal_bind;
    [apply internal_modify; intro; apply step_engine | intros _].
  apply internal_addProcessingActions.
Qed.

Lemma internal_completions (batches : list (nat * Actions T)) :
  internal (completions (E:=E) batches).
Proof.
  induction batches as [|[fuel batch] rest IH]; simpl.
  - apply internal_ret.
  - apply internal_bind; [apply internal_processActions | intros _; exact IH].
Qed.

Lemma post_scope_exit {A : Type} (f : State E -> State E) (c : M E A)
    (s : State E) (Q : State E -> Prop) :
  post (c s) Q ->
  post (scope_exit f c s) (fun s' => exists s2, Q s2 /\ (s' = s2 \/ s' = f s2)).
Proof.
  unfold scope_exit. destruct (c s) as [a s2|e s2|m|s2]; simpl; eauto.
Qed.

Lemma post_then_throwIfError (c : M E unit) (s : State E)
    (Q : State E -> Prop) :
  post (c s) Q -> post ((c ;; throwIfError) s) Q.
Proof.
  unfold bind. destruct (c s) as [a s2|e s2|m|s2]; simpl; auto.
  unfold throwIfError, bind, gets, throw, ret.
  destruct (error_ s2); simpl; auto.
Qed.

(** The object as [doHandshake] leaves it for the drain. *)
Lemma doHandshake_steps (fuel : nat) (data : list byte) (l : EncryptionLevel)
    (s : State E) :
  post (doHandshake fuel data (Enumerator l) s)
    (fun s' =>
       exists s2,
         Steps
           (set_readBuf (levelBuf l) (readBuf (levelBuf l) s ++ data)
              (set_waitForData_ false (set_inHandshakeStack_ true s))) s2 /\
         exits s2 s').
Proof.
  unfold doHandshake, exits. apply post_scope_exit.
  set (s1 := set_readBuf (levelBuf l) (readBuf (levelBuf l) s ++ data)
               (set_waitForData_ false (set_inHandshakeStack_ true s))).
  replace ((modify (set_inHandshakeStack_ true);;
            modify (set_waitForData_ false);;
            match Enumerator l with
            | Enumerator Initial => appendBuf initialReadBuf data
            | Enumerator Handshake => appendBuf handshakeReadBuf data
            | Enumerator EarlyData | Enumerator AppData =>
                appendBuf appDataReadBuf data
            | OutOfRange _ => fatal "Unhandled EncryptionLevel"
            end;; processPendingEvents fuel;; throwIfError) s)
    with ((processPendingEvents fuel;; throwIfError) s1)
    by (subst s1; destruct l; reflexivity).
  apply post_then_throwIfError. apply internal_processPendingEvents.
Qed.

Lemma doHandshake_out_of_range (fuel : nat) (data : list byte) (raw : N)
    (s : State E) :
  doHandshake fuel data (OutOfRange raw) s = Fatal "Unhandled EncryptionLevel".
Proof. reflexivity. Qed.

Lemma writeNewSessionTicket_steps (fuel : nat) (token : AppToken T)
    (s : State E) :
  post (writeNewSessionTicket fuel token s)
    (fun s' =>
       exists s2, Steps (set_inHandshakeStack_ true s) s2 /\ exits s2 s').
Proof.
  unfold writeNewSessionTicket, exits. apply post_scope_exit.
  change ((modify (set_inHandshakeStack_ true);;
           writeNewSessionTicketToCrypto token;;
           processPendingEvents fuel;; throwIfError) s)
    with (((writeNewSessionTicketToCrypto token;;
            processPendingEvents fuel);; throwIfError)
            (set_inHandshakeStack_ true s)).
  apply post_then_throwIfError.
  apply internal_bind; [|intros _; apply internal_processPendingEvents].
  apply internal_modify. intro s0. apply step_engine.
Qed.

Lemma accept_steps (fuel : nat)
    (transportParams : option (ServerTransportParametersExtension T))
    (s : State E) :
  post (accept fuel transportParams s)
    (fun s' =>
       exists s2,
         Steps (set_inHandshakeStack_ true
                  (set_transportParams_ transportParams s)) s2 /\
         exits s2 s').
Proof.
  unfold accept, exits. apply post_scope_exit.
  change ((modify (set_transportParams_ transportParams);;
           modify (set_inHandshakeStack_ true);; processAccept fuel) s)
    with (processAccept fuel
            (set_inHandshakeStack_ true
               (set_transportParams_ transportParams s))).
  apply internal_processAccept.
Qed.

(** ** Invariants of the internal steps *)

Ltac step_cases H :=
  destruct H as [v s|v s|batch s|st s|b taken s|kind secret s
                |stream data s s' Hw|e s|s|s|p s|cb s Hcb Hin Hav|s|s];
  [ | | | | destruct b
  | unfold computeCiphers; destruct (buildCiphers E secret); destruct kind
  | unfold writeDataToQuicStream, modify in Hw; injection Hw as <-
  | | | | | | | ].

Lemma notifications_engineRead (s : State E) (b : ReadBufRef)
    (contents : list byte) (taken : nat) (evs : list (Event T)) :
  List.length (filter (isNotification (T:=T)) (evs ++ [EngineRead b contents taken])) =
  List.length (filter (isNotification (T:=T)) evs).
Proof. rewrite filter_app. simpl. rewrite app_nil_r. reflexivity. Qed.

Lemma step_in_stack (s s' : State E) :
  InternalStep s s' ->
  inHandshakeStack_ s = true ->
  inHandshakeStack_ s' = true /\ notifications s' = notifications s.
Proof.
  intros H Hs. step_cases H; unfold notifications; simpl;
    try rewrite (notifications_engineRead s); try (split; [exact Hs|reflexivity]).
  congruence.
Qed.

Lemma step_cancelled (s s' : State E) :
  InternalStep s s' ->
  callback_ s = None ->
  callback_ s' = None /\ notifications s' = notifications s.
Proof.
  intros H Hs. step_cases H; unfold notifications; simpl;
    try rewrite (notifications_engineRead s); try (split; [exact Hs|reflexivity]).
  congruence.
Qed.

Lemma step_transportParams (s s' : State E) :
  InternalStep s s' -> transportParams_ s' = transportParams_ s.
Proof. intros H. step_cases H; reflexivity. Qed.

Lemma step_handshakeDone (s s' : State E) :
  InternalStep s s' -> handshakeDone_ s = true -> handshakeDone_ s' = true.
Proof. intros H Hs. step_cases H; simpl; exact Hs || reflexivity. Qed.

Lemma engineTook_app (b : ReadBufRef) (evs1 evs2 : list (Event T)) :
  engineTook b (evs1 ++ evs2) = engineTook b evs1 ++ engineTook b evs2.
Proof. unfold engineTook. apply flat_map_app. Qed.

Lemma step_presented (b : ReadBufRef) (s s' : State E) :
  InternalStep s s' -> presented b s' = presented b s.
Proof.
  intros H.
  destruct H as [v s|v s|batch s|st s|b' taken s|kind secret s
                |stream data s s' Hw|e s|s|s|p s|cb s Hcb Hin Hav|s|s];
    try (destruct b; reflexivity).
  - unfold presented.
    replace (events_ (set_readBuf b' (skipn taken (readBuf b' s))
               (set_events_ (events_ s ++ [EngineRead b' (readBuf b' s) taken]) s)))
      with (events_ s ++ [EngineRead b' (readBuf b' s) taken])
      by (destruct b'; reflexivity).
    rewrite engineTook_app. simpl. rewrite app_nil_r, <- app_assoc.
    f_equal.
    destruct b, b'; simpl; try reflexivity; apply firstn_skipn.
  - unfold computeCiphers. destruct (buildCiphers E secret).
    destruct kind, b; reflexivity.
  - unfold writeDataToQuicStream, modify in Hw. injection Hw as <-.
    destruct b; reflexivity.
  - unfold presented. simpl. rewrite engineTook_app. simpl.
    rewrite app_nil_r. destruct b; reflexivity.
Qed.

Lemma steps_presented (b : ReadBufRef) (s s' : State E) :
  Steps s s' -> presented b s' = presented b s.
Proof.
  intro H.
  refine (steps_invariant (fun x => presented b x = presented b s) _ H _);
    [|reflexivity].
  intros x y Hxy Hx. rewrite <- Hx. apply step_presented. exact Hxy.
Qed.

Lemma steps_in_stack (s s' : State E) :
  Steps s s' ->
  inHandshakeStack_ s = true ->
  inHandshakeStack_ s' = true /\ notifications s' = notifications s.
Proof.
  intros H Hs.
  refine (steps_invariant
            (fun x => inHandshakeStack_ x = true /\
                      notifications x = notifications s) _ H _);
    [|split; [exact Hs|reflexivity]].
  intros x y Hxy [Hx Hn]. rewrite <- Hn. apply step_in_stack; assumption.
Qed.

Lemma steps_cancelled (s s' : State E) :
  Steps s s' ->
  callback_ s = None ->
  callback_ s' = None /\ notifications s' = notifications s.
Proof.
  intros H Hs.
  refine (steps_invariant
            (fun x => callback_ x = None /\
                      notifications x = notifications s) _ H _);
    [|split; [exact Hs|reflexivity]].
  intros x y Hxy [Hx Hn]. rewrite <- Hn. apply step_cancelled; assumption.
Qed.

Lemma steps_transportParams (s s' : State E) :
  Steps s s' -> transportParams_ s' = transportParams_ s.
Proof.
  intro H.
  refine (steps_invariant
            (fun x => transportParams_ x = transportParams_ s) _ H _);
    [|reflexivity].
  intros x y Hxy Hx. rewrite <- Hx. apply step_transportParams. exact Hxy.
Qed.

Lemma steps_handshakeDone (s s' : State E) :
  Steps s s' -> handshakeDone_ s = true -> handshakeDone_ s' = true.
Proof.
  intros H Hs.
  refine (steps_invariant (fun x => handshakeDone_ x = true) _ H Hs).
  intros x y Hxy Hx. exact (step_handshakeDone Hxy Hx).
Qed.

(** ** C3 *)

Lemma applyAction_quiet (a : Action T) (s s1 : State E) :
  applyAction a s = Returned tt s1 ->
  events_ s1 = events_ s /\
  inProcessPendingEvents_ s1 = inProcessPendingEvents_ s.
Proof.
  destruct a as [kind secret|level data|m c| | |p]; simpl;
    unfold modify; intro H.
  - injection H as <-. unfold computeCiphers.
    destruct (buildCiphers E secret). destruct kind; auto.
  - unfold writeDataToStream in H.
    destruct (isEarlyData level); [discriminate|].
    destruct level as [l|raw]; [|discriminate].
    injection H as <-. auto.
  - injection H as <-. auto.
  - injection H as <-. auto.
  - injection H as <-. auto.
  - injection H as <-. auto.
Qed.

Lemma processCryptoActions_quiet (actions : Actions T) (s s1 : State E) :
  processCryptoActions actions s = Returned tt s1 ->
  events_ s1 = events_ s /\
  inProcessPendingEvents_ s1 = inProcessPendingEvents_ s.
Proof.
  revert s. induction actions as [|a rest IH]; simpl; intros s H.
  - injection H as <-. auto.
  - unfold bind in H.
    destruct (applyAction a s) as [[] s'|e s'|m|s'] eqn:Ha; try discriminate.
    destruct (applyAction_quiet _ _ Ha) as [He Hp].
    destruct (IH _ H) as [He' Hp']. split; congruence.
Qed.

Lemma processPendingEvents_nested (fuel : nat) (s : State E) :
  inProcessPendingEvents_ s = true ->
  processPendingEvents (S fuel) s = Returned tt s.
Proof. intro H. simpl. unfold bind, gets. rewrite H. reflexivity. Qed.

(** C3. When [processActions] has applied a batch (state [s1]), the
    application callback is invoked exactly when a callback is registered,
    [inHandshakeStack_] is false and [handshakeEventAvailable_] is set,
    and then once; the flag is cleared either way before the drain is
    re-entered, and for a completion inside the drain loop that is the
    whole call.  During [doHandshake], [accept] and
    [writeNewSessionTicket] the callback is never invoked. *)
Theorem callback_gate :
  (forall fuel actions (s s1 : State E),
     processCryptoActions actions s = Returned tt s1 ->
     exists s2,
       processActions (S fuel) actions s = processPendingEvents fuel s2 /\
       events_ s2 =
         events_ s ++
         match callback_ s1 with
         | Some cb =>
             if shouldNotify s1 then [onCryptoEventAvailable cb] else []
         | None => []
         end /\
       notifications s2 =
         notifications s + (if shouldNotify s1 then 1 else 0) /\
       handshakeEventAvailable_ s2 = false /\
       actionGuard_ s2 = false /\
       (inProcessPendingEvents_ s = true ->
        forall fuel', processActions (S (S fuel')) actions s = Returned tt s2)) /\
  (forall fuel data level (s : State E),
     post (doHandshake fuel data level s)
       (fun s' => notifications s' = notifications s)) /\
  (forall fuel transportParams (s : State E),
     post (accept fuel transportParams s)
       (fun s' => notifications s' = notifications s)) /\
  (forall fuel token (s : State E),
     post (writeNewSessionTicket fuel token s)
       (fun s' => notifications s' = notifications s)).
Proof.
  split; [|split; [|split]].
  - intros fuel actions s s1 Hbatch.
    destruct (processCryptoActions_quiet _ _ Hbatch) as [Hev Hpe].
    assert (Hshape : forall f,
      processActions (S f) actions s =
      processPendingEvents f
        (set_handshakeEventAvailable_ false
           (match callback_ s1 with
            | Some cb =>
                if shouldNotify s1
                then set_events_ (events_ s1 ++ [onCryptoEventAvailable cb])
                       (set_actionGuard_ false s1)
                else set_actionGuard_ false s1
            | None => set_actionGuard_ false s1
            end))).
    { intro f. simpl. unfold bind at 1. rewrite Hbatch.
      unfold bind, modify, gets, shouldNotify. simpl.
      destruct (callback_ s1) as [cb|]; simpl; [|reflexivity].
      destruct (inHandshakeStack_ s1), (handshakeEventAvailable_ s1);
        reflexivity. }
    eexists. split; [apply Hshape|].
    assert (Hnested : forall s2 : State E,
              inProcessPendingEvents_ s2 = inProcessPendingEvents_ s1 ->
              inProcessPendingEvents_ s = true ->
              forall fuel', processPendingEvents (S fuel') s2 = Returned tt s2).
    { intros s2 H2 Hin fuel'. apply processPendingEvents_nested. congruence. }
    refine (conj _ (conj _ (conj _ (conj _ _)))).
    + rewrite <- Hev. destruct (callback_ s1) as [cb|];
        [destruct (shouldNotify s1)|]; simpl;
        rewrite ?app_nil_r; reflexivity.
    + unfold notifications. rewrite <- Hev. unfold shouldNotify.
      destruct (callback_ s1) as [cb|]; simpl;
        [destruct (inHandshakeStack_ s1), (handshakeEventAvailable_ s1)|];
        simpl; rewrite ?filter_app, ?length_app, ?Nat.add_0_r; reflexivity.
    + reflexivity.
    + destruct (callback_ s1) as [cb|]; [destruct (shouldNotify s1)|];
        reflexivity.
    + intros Hin fuel'. rewrite Hshape. apply Hnested; [|exact Hin].
      destruct (callback_ s1) as [cb|]; [destruct (shouldNotify s1)|];
        reflexivity.
  - intros fuel data [l|raw] s; [|exact I].
    eapply post_weaken; [|apply doHandshake_steps].
    intros s' (s2 & Hsteps & Hexit).
    destruct (steps_in_stack Hsteps) as [_ Hn];
      [destruct l; reflexivity|].
    replace (notifications s) with (notifications s2)
      by (rewrite Hn; destruct l; reflexivity).
    destruct Hexit as [-> | ->]; reflexivity.
  - intros fuel tp s.
    eapply post_weaken; [|apply accept_steps].
    intros s' (s2 & Hsteps & Hexit).
    destruct (steps_in_stack Hsteps) as [_ Hn]; [reflexivity|].
    replace (notifications s) with (notifications s2) by exact Hn.
    destruct Hexit as [-> | ->]; reflexivity.
  - intros fuel token s.
    eapply post_weaken; [|apply writeNewSessionTicket_steps].
    intros s' (s2 & Hsteps & Hexit).
    destruct (steps_in_stack Hsteps) as [_ Hn]; [reflexivity|].
    replace (notifications s) with (notifications s2) by exact Hn.
    destruct Hexit as [-> | ->]; reflexivity.
Qed.

(** ** Feeding the read buffers *)

Lemma presented_fed (b : ReadBufRef) (l : EncryptionLevel)
    (data : list byte) (s : State E) :
  presented b
    (set_readBuf (levelBuf l) (readBuf (levelBuf l) s ++ data)
       (set_waitForData_ false (set_inHandshakeStack_ true s))) =
  presented b s ++ (if ReadBufRef_eqb b (levelBuf l) then data else []).
Proof.
  unfold presented.
  destruct l, b; simpl; rewrite ?app_nil_r, ?app_assoc; reflexivity.
Qed.

(** ** C10 *)

(** C10. [getClientTransportParams] dereferences [transportParams_]: on a
    fresh object the pointer is null and the call has no value; it has a
    value exactly when the pointer is set; [accept] with a holder sets it,
    and afterwards the call returns the holder's parameters; the other
    entry points and the internal processing leave the pointer alone. *)
Theorem getClientTransportParams_needs_accept :
  (forall conn phase0 engine0,
     getClientTransportParams (newServerHandshake (E:=E) conn phase0 engine0)
     = None) /\
  (forall s : State E,
     getClientTransportParams s = None <-> transportParams_ s = None) /\
  (forall fuel holder (s : State E),
     post (accept fuel (Some holder) s)
       (fun s' =>
          getClientTransportParams s' =
          Some (holderClientTransportParams E holder))) /\
  (forall fuel data l (s : State E),
     post (doHandshake fuel data (Enumerator l) s)
       (fun s' => getClientTransportParams s' = getClientTransportParams s)) /\
  (forall fuel token (s : State E),
     post (writeNewSessionTicket fuel token s)
       (fun s' => getClientTransportParams s' = getClientTransportParams s)) /\
  (forall fuel actions (s : State E),
     post (processActions fuel actions s)
       (fun s' => getClientTransportParams s' = getClientTransportParams s)).
Proof.
  refine (conj _ (conj _ (conj _ (conj _ (conj _ _))))).
  - reflexivity.
  - intro s. unfold getClientTransportParams.
    destruct (transportParams_ s); split; congruence.
  - intros fuel holder s.
    eapply post_weaken; [|apply accept_steps].
    intros s' (s2 & Hsteps & Hexit).
    assert (H2 : transportParams_ s2 = Some holder)
      by (rewrite (steps_transportParams Hsteps); reflexivity).
    unfold getClientTransportParams.
    destruct Hexit as [-> | ->]; simpl; rewrite H2; reflexivity.
  - intros fuel data l s.
    eapply post_weaken; [|apply doHandshake_steps].
    intros s' (s2 & Hsteps & Hexit).
    assert (H2 : transportParams_ s2 = transportParams_ s)
      by (rewrite (steps_transportParams Hsteps); destruct l; reflexivity).
    unfold getClientTransportParams.
    destruct Hexit as [-> | ->]; simpl; rewrite H2; reflexivity.
  - intros fuel token s.
    eapply post_weaken; [|apply writeNewSessionTicket_steps].
    intros s' (s2 & Hsteps & Hexit).
    assert (H2 : transportParams_ s2 = transportParams_ s)
      by (rewrite (steps_transportParams Hsteps); reflexivity).
    unfold getClientTransportParams.
    destruct Hexit as [-> | ->]; simpl; rewrite H2; reflexivity.
  - intros fuel actions s.
    eapply post_weaken; [|apply internal_processActions].
    intros s' Hsteps. unfold getClientTransportParams.
    rewrite (steps_transportParams Hsteps). reflexivity.
Qed.

(** ** C7 *)

Lemma oblivious_ret {A : Type} (a : A) : oblivious (ret (E:=E) a).
Proof. intro s. reflexivity. Qed.

Lemma oblivious_fatal {A : Type} (m : string) :
  oblivious (fatal (E:=E) (A:=A) m).
Proof. intro s. reflexivity. Qed.

Lemma oblivious_outOfFuel {A : Type} : oblivious (outOfFuel (E:=E) (A:=A)).
Proof. intro s. reflexivity. Qed.

Lemma oblivious_gets {A : Type} (f : State E -> A) :
  (forall s, f (unnotified s) = f s) -> oblivious (gets f).
Proof. intros H s. unfold gets. rewrite H. reflexivity. Qed.

Lemma oblivious_modify (f : State E -> State E) :
  (forall s, f (unnotified s) = unnotified (f s)) -> oblivious (modify f).
Proof. intros H s. unfold modify. rewrite H. reflexivity. Qed.

Lemma oblivious_bind {A B : Type} (c : M E A) (k : A -> M E B) :
  oblivious c -> (forall a, oblivious (k a)) -> oblivious (bind c k).
Proof.
  intros Hc Hk s. unfold bind. rewrite Hc.
  destruct (c s) as [a s'|e s'|m|s']; simpl; auto. apply Hk.
Qed.

Lemma oblivious_scope_exit {A : Type} (f : State E -> State E) (c : M E A) :
  (forall s, f (unnotified s) = unnotified (f s)) ->
  oblivious c -> oblivious (scope_exit f c).
Proof.
  intros Hf Hc s. unfold scope_exit. rewrite Hc.
  destruct (c s) as [a s'|e s'|m|s']; simpl; rewrite ?Hf; reflexivity.
Qed.

Lemma oblivious_applyAction (a : Action T) : oblivious (applyAction (E:=E) a).
Proof.
  destruct a as [kind secret|level data|m c| | |p]; simpl;
    try (apply oblivious_modify; intro s; reflexivity).
  - apply oblivious_modify. intro s. unfold computeCiphers.
    destruct (buildCiphers E secret). destruct kind; reflexivity.
  - intro s. unfold writeDataToStream.
    destruct (isEarlyData level); [reflexivity|].
    destruct level as [l|raw]; reflexivity.
Qed.

Lemma oblivious_processCryptoActions (actions : Actions T) :
  oblivious (processCryptoActions (E:=E) actions).
Proof.
  induction actions as [|a rest IH]; simpl.
  - apply oblivious_ret.
  - apply oblivious_bind; [apply oblivious_applyAction | intros _; exact IH].
Qed.

Lemma unnotified_engineRead (b : ReadBufRef) (contents : list byte)
    (taken : nat) (s : State E) :
  set_events_ (events_ (unnotified s) ++ [EngineRead b contents taken])
    (unnotified s) =
  unnotified (set_events_ (events_ s ++ [EngineRead b contents taken]) s).
Proof. unfold unnotified. simpl. rewrite filter_app. reflexivity. Qed.

Lemma unnotified_notify (cb : HandshakeCallback T) (s : State E) :
  unnotified (set_events_ (events_ s ++ [onCryptoEventAvailable cb]) s) =
  unnotified s.
Proof.
  unfold unnotified. simpl. rewrite filter_app. simpl.
  rewrite app_nil_r. reflexivity.
Qed.

Lemma oblivious_processSocketData (k : AsyncActions T -> M E unit)
    (b : ReadBufRef) :
  (forall a, oblivious (k a)) -> oblivious (processSocketData k b).
Proof.
  intro Hk. unfold processSocketData.
  apply oblivious_bind;
    [apply oblivious_gets; intro s; destruct b; reflexivity | intros contents].
  apply oblivious_bind; [apply oblivious_gets; reflexivity | intros st].
  destruct (engineSocketData E st contents) as [[st' taken] actions].
  apply oblivious_bind;
    [apply oblivious_modify; intro s; apply unnotified_engineRead | intros _].
  apply oblivious_bind;
    [apply oblivious_modify; intro s; destruct b; reflexivity | intros _].
  apply oblivious_bind;
    [apply oblivious_modify; intro s; reflexivity | intros _].
  apply Hk.
Qed.

Lemma oblivious_notify (k : M E unit) :
  oblivious k ->
  oblivious
    (callback <- gets (callback_ (E:=E)) ;;
     inHandshakeStack <- gets (inHandshakeStack_ (E:=E)) ;;
     handshakeEventAvailable <- gets (handshakeEventAvailable_ (E:=E)) ;;
     match callback with
     | Some cb =>
         if negb inHandshakeStack && handshakeEventAvailable
         then log (onCryptoEventAvailable cb)
         else ret tt
     | None => ret tt
     end ;;
     k).
Proof.
  intros Hk s.
  assert (Hl : forall s0 : State E,
            callback_ s0 = None ->
            (callback <- gets (callback_ (E:=E)) ;;
             inHandshakeStack <- gets (inHandshakeStack_ (E:=E)) ;;
             handshakeEventAvailable <- gets (handshakeEventAvailable_ (E:=E)) ;;
             match callback with
             | Some cb =>
                 if negb inHandshakeStack && handshakeEventAvailable
                 then log (onCryptoEventAvailable cb)
                 else ret tt
             | None => ret tt
             end ;;
             k) s0 = k s0).
  { intros s0 H0. unfold bind, gets. rewrite H0. reflexivity. }
  rewrite Hl by reflexivity. rewrite Hk.
  unfold bind, gets.
  destruct (callback_ s) as [cb|]; [|reflexivity].
  destruct (negb (inHandshakeStack_ s) && handshakeEventAvailable_ s);
    [|reflexivity].
  unfold log, modify. rewrite <- !Hk, unnotified_notify. reflexivity.
Qed.

Lemma oblivious_run (fuel : nat) :
  (forall actions, oblivious (processActions (E:=E) fuel actions)) /\
  oblivious (processPendingEvents (E:=E) fuel) /\
  oblivious (pendingEventsLoop (E:=E) fuel) /\
  (forall actions, oblivious (startActions (E:=E) fuel actions)).
Proof.
  induction fuel as [|fuel (IHa & IHp & IHl & IHs)].
  - repeat apply conj; intros; apply oblivious_outOfFuel.
  - repeat apply conj.
    + intro actions. simpl.
      apply oblivious_bind; [apply oblivious_processCryptoActions | intros _].
      apply oblivious_bind;
        [apply oblivious_modify; reflexivity | intros _].
      apply oblivious_notify.
      apply oblivious_bind;
        [apply oblivious_modify; reflexivity | intros _].
      exact IHp.
    + simpl.
      apply oblivious_bind; [apply oblivious_gets; reflexivity | intros [|]].
      * apply oblivious_ret.
      * apply oblivious_bind;
          [apply oblivious_modify; reflexivity | intros _].
        apply oblivious_scope_exit; [reflexivity | exact IHl].
    + simpl.
      apply oblivious_bind; [apply oblivious_gets; reflexivity | intros guard].
      apply oblivious_bind; [apply oblivious_gets; reflexivity | intros error].
      destruct (negb guard && negb (isSome error)); [|apply oblivious_ret].
      apply oblivious_bind;
        [apply oblivious_modify; reflexivity | intros _].
      apply oblivious_bind; [apply oblivious_gets; reflexivity | intros wait].
      destruct (negb wait).
      * apply oblivious_bind;
          [apply oblivious_gets; reflexivity | intros level].
        apply oblivious_bind; [|intros _; exact IHl].
        destruct level as [[| | |]|raw];
          try (apply oblivious_processSocketData; exact IHs).
        apply oblivious_fatal.
      * apply oblivious_bind.
        -- unfold processPendingCryptoEvent.
           apply oblivious_bind;
             [apply oblivious_gets; reflexivity | intros st].
           destruct (enginePendingCryptoEvent E st) as [[st' actions]|].
           ++ apply oblivious_bind;
                [apply oblivious_modify; reflexivity | intros _].
              apply oblivious_bind; [apply IHs | intros _; apply oblivious_ret].
           ++ apply oblivious_ret.
        -- intros resumed. destruct (negb resumed); [|exact IHl].
           apply oblivious_modify; reflexivity.
    + intros [batch|batch]; simpl.
      * apply IHa.
      * apply oblivious_modify. reflexivity.
Qed.

Lemma oblivious_completions (batches : list (nat * Actions T)) :
  oblivious (completions (E:=E) batches).
Proof.
  induction batches as [|[fuel batch] rest IH]; simpl.
  - apply oblivious_ret.
  - apply oblivious_bind; [apply (oblivious_run fuel) | intros _; exact IH].
Qed.

(** C7. [cancel] sets [callback_] to null and leaves every other member
    as it is; doing it twice is doing it once; afterwards [isCancelled]
    holds.  From then on, however many engine completions follow, the
    callback stays detached and is never invoked, while everything else
    goes on as it would have without the cancel: apart from the callback
    pointer and the callback invocations, the completions end the same
    way in the same state, the cipher slots included. *)
Theorem cancel_detaches_callback (s : State E) :
  cancel s =
    @mkState T E (conn_ s) (actionGuard_ s) (transportParams_ s)
      (inHandshakeStack_ s) (executor_ s) (waitForData_ s)
      (initialReadBuf_ s) (handshakeReadBuf_ s) (appDataReadBuf_ s)
      (error_ s) (handshakeReadCipher_ s) (oneRttWriteCipher_ s)
      (oneRttReadCipher_ s) (zeroRttReadCipher_ s)
      (oneRttReadHeaderCipher_ s) (oneRttWriteHeaderCipher_ s)
      (handshakeReadHeaderCipher_ s) (zeroRttReadHeaderCipher_ s)
      None (phase_ s) (handshakeDone_ s) (handshakeEventAvailable_ s)
      (inProcessPendingEvents_ s) (engine_ s) (futures_ s) (events_ s) /\
  cancel (cancel s) = cancel s /\
  isCancelled (cancel s) = true /\
  (forall batches,
     post (completions batches (cancel s))
       (fun s' =>
          isCancelled s' = true /\ notifications s' = notifications s)) /\
  (forall batches,
     mapOutcome unnotified (completions batches (cancel s)) =
     mapOutcome unnotified (completions batches s)) /\
  (forall kind secret,
     computeCiphers kind secret (cancel s) =
     cancel (computeCiphers kind secret s)).
Proof.
  refine (conj eq_refl (conj eq_refl (conj eq_refl (conj _ (conj _ _))))).
  - intro batches.
    eapply post_weaken; [|apply internal_completions].
    intros s' Hsteps.
    destruct (steps_cancelled Hsteps) as [Hcb Hn]; [reflexivity|].
    unfold isCancelled. rewrite Hcb. split; [reflexivity|exact Hn].
  - intro batches.
    rewrite <- !oblivious_completions. reflexivity.
  - intros kind secret. unfold computeCiphers.
    destruct (buildCiphers E secret). destruct kind; reflexivity.
Qed.

(** ** C1 *)

Lemma processActions_unfold (fuel : nat) (actions : Actions T) (s : State E) :
  processActions (S fuel) actions s =
  (processCryptoActions actions ;;
   (fun s1 => processPendingEvents fuel (completed s1))) s.
Proof.
  simpl. unfold bind.
  destruct (processCryptoActions actions s) as [[] s1|e s1|m|s1]; try reflexivity.
  unfold modify, gets, completed, shouldNotify. simpl.
  destruct (callback_ s1) as [cb|]; simpl; [|reflexivity].
  destruct (inHandshakeStack_ s1), (handshakeEventAvailable_ s1); reflexivity.
Qed.

Lemma post_bind {A B : Type} (c : M E A) (k : A -> M E B) (s : State E)
    (P Q : State E -> Prop) :
  post (c s) P ->
  (forall s', P s' -> Q s') ->
  (forall a s', P s' -> post (k a s') Q) ->
  post (bind c k s) Q.
Proof.
  intros Hc HPQ Hk. unfold bind.
  destruct (c s) as [a s'|e s'|m|s']; simpl in *; auto.
Qed.

Lemma applyAction_frame (a : Action T) (s : State E) :
  post (applyAction a s)
    (fun s1 => futures_ s1 = futures_ s /\ actionGuard_ s1 = actionGuard_ s).
Proof.
  destruct a as [kind secret|level data|m c| | |p]; simpl; auto.
  - unfold computeCiphers. destruct (buildCiphers E secret).
    destruct kind; auto.
  - unfold writeDataToStream. destruct (isEarlyData level); [exact I|].
    destruct level as [l|raw]; simpl; auto.
Qed.

Lemma processCryptoActions_frame (actions : Actions T) (s : State E) :
  post (processCryptoActions actions s)
    (fun s1 => futures_ s1 = futures_ s /\ actionGuard_ s1 = actionGuard_ s).
Proof.
  revert s. induction actions as [|a rest IH]; intro s; simpl; auto.
  eapply post_bind with
    (P := fun s1 => futures_ s1 = futures_ s /\ actionGuard_ s1 = actionGuard_ s).
  - apply applyAction_frame.
  - auto.
  - intros _ s' [Hf Hg]. eapply post_weaken; [|apply IH].
    intros s2 [Hf2 Hg2]. split; congruence.
Qed.

Lemma noneInFlight (s : State E) : futures_ s = [] -> oneInFlight s.
Proof. intro H. unfold oneInFlight. rewrite H. simpl. auto. Qed.

Lemma oneInFlight_same (s s' : State E) :
  futures_ s' = futures_ s -> actionGuard_ s' = actionGuard_ s ->
  oneInFlight s -> oneInFlight s'.
Proof. unfold oneInFlight. intros -> ->. auto. Qed.

Lemma inflight_run (fuel : nat) :
  (forall actions (s : State E),
     futures_ s = [] -> post (processActions fuel actions s) oneInFlight) /\
  (forall s : State E,
     oneInFlight s -> post (processPendingEvents fuel s) oneInFlight) /\
  (forall s : State E,
     oneInFlight s -> post (pendingEventsLoop fuel s) oneInFlight) /\
  (forall actions (s : State E),
     futures_ s = [] -> actionGuard_ s = true ->
     post (startActions fuel actions s) oneInFlight).
Proof.
  induction fuel as [|fuel (IHa & IHp & IHl & IHs)].
  - repeat apply conj; intros; simpl; auto using noneInFlight.
  - repeat apply conj.
    + intros actions s Hs. rewrite processActions_unfold.
      eapply post_bind with (P := fun s1 : State E => futures_ s1 = []).
      * eapply post_weaken; [|apply processCryptoActions_frame].
        intros s1 [Hf _]. congruence.
      * apply noneInFlight.
      * intros _ s1 H1. apply IHp. apply noneInFlight.
        unfold completed. destruct (callback_ s1); [destruct (shouldNotify s1)|];
          exact H1.
    + intros s Hs. simpl. unfold bind at 1. unfold gets.
      destruct (inProcessPendingEvents_ s); [exact Hs|].
      unfold bind, modify.
      eapply post_weaken; [|apply post_scope_exit; apply IHl].
      * intros s' (s2 & H2 & [-> | ->]); [exact H2|].
        revert H2. apply oneInFlight_same; reflexivity.
      * revert Hs. apply oneInFlight_same; reflexivity.
    + intros s Hs. simpl. unfold bind at 1 2. unfold gets.
      destruct (actionGuard_ s) eqn:Hg; [exact Hs|].
      destruct (isSome (error_ s)); [exact Hs|]. simpl.
      assert (Hf : futures_ s = []) by (apply (proj1 Hs); exact Hg).
      unfold bind at 1. unfold modify.
      unfold bind at 1. unfold gets. simpl.
      destruct (waitForData_ s); simpl.
      * unfold processPendingCryptoEvent. unfold bind at 1 2. unfold gets.
        simpl.
        destruct (enginePendingCryptoEvent E (engine_ s)) as [[st' actions]|].
        -- unfold bind, modify, ret.
           pose proof (IHs actions (set_engine_ st' (set_actionGuard_ true s))
                         Hf eq_refl) as Hrun.
           destruct (startActions fuel actions
                       (set_engine_ st' (set_actionGuard_ true s)))
             as [[] s'|e s'|m|s']; simpl in *; auto.
        -- simpl. apply noneInFlight. exact Hf.
      * unfold bind at 1. unfold getReadRecordLayerEncryptionLevel, gets.
        eapply post_bind with (P := oneInFlight); auto.
        destruct (engineReadLevel E (engine_ (set_actionGuard_ true s)))
          as [[| | |]|raw]; try exact I;
          unfold processSocketData, bind, gets, log, modify; simpl;
          match goal with
          | |- context [engineSocketData E ?st ?buf] =>
              destruct (engineSocketData E st buf) as [[st' taken] actions]
          end;
          apply IHs; simpl; auto.
    + intros [batch|batch] s Hf Hg; simpl.
      * apply IHa. exact Hf.
      * unfold oneInFlight. simpl. rewrite Hf. simpl. split; [|lia].
        intro H. congruence.
Qed.

Lemma addProcessingActions_inflight (fuel : nat) (actions : AsyncActions T)
    (s : State E) :
  oneInFlight s -> post (addProcessingActions fuel actions s) oneInFlight.
Proof.
  intro Hs. unfold addProcessingActions, bind, gets, modify.
  destruct (actionGuard_ s) eqn:Hg.
  - simpl. revert Hs. apply oneInFlight_same; reflexivity.
  - apply (inflight_run fuel); [apply (proj1 Hs); exact Hg | reflexivity].
Qed.

Lemma scope_exit_inflight (c : M E unit) (s : State E) :
  post (c s) oneInFlight ->
  post (scope_exit (set_inHandshakeStack_ false) c s) oneInFlight.
Proof.
  intro H. eapply post_weaken; [|apply post_scope_exit; exact H].
  intros s' (s2 & H2 & [-> | ->]); [exact H2|].
  revert H2. apply oneInFlight_same; reflexivity.
Qed.

(** C1. A call to [addProcessingActions] made while the action guard is
    held records the terminal error ("Processing action while pending",
    INTERNAL_ERROR) and returns: the new actions are neither started nor
    queued, and the action in flight keeps its guard, its pending
    continuation, the engine state and the log of outside calls; the
    object changes in [error_] and [handshakeEventAvailable_] only.
    Throughout the life of the object at most one deferred batch is
    pending, and only while the guard is held: this holds of a fresh
    object and is kept by every entry point and by the completion of the
    pending batch. *)
Theorem one_action_in_flight :
  (forall fuel (actions : AsyncActions T) (s : State E),
     actionGuard_ s = true ->
     let pending := ("Processing action while pending", INTERNAL_ERROR) in
     let s' :=
       set_handshakeEventAvailable_ true (set_error_ (Some pending) s) in
     addProcessingActions fuel actions s = Returned tt s' /\
     error_ s' = Some pending /\
     actionGuard_ s' = true /\
     futures_ s' = futures_ s /\
     engine_ s' = engine_ s /\
     events_ s' = events_ s) /\
  (forall conn phase0 engine0,
     oneInFlight (newServerHandshake (E:=E) conn phase0 engine0)) /\
  (forall s : State E,
     oneInFlight s ->
     (forall fuel actions,
        post (addProcessingActions fuel actions s) oneInFlight) /\
     (forall fuel transportParams,
        post (accept fuel transportParams s) oneInFlight) /\
     (forall fuel data level,
        post (doHandshake fuel data level s) oneInFlight) /\
     (forall fuel token,
        post (writeNewSessionTicket fuel token s) oneInFlight) /\
     (forall fuel, post (fulfilFuture fuel s) oneInFlight)).
Proof.
  refine (conj _ (conj _ _)).
  - intros fuel actions s Hguard pending s'.
    repeat apply conj; try reflexivity; try exact Hguard.
    unfold addProcessingActions, bind, gets. rewrite Hguard. reflexivity.
  - intros conn phase0 engine0. apply noneInFlight. reflexivity.
  - intros s Hs. refine (conj _ (conj _ (conj _ (conj _ _)))).
    + intros fuel actions. apply addProcessingActions_inflight. exact Hs.
    + intros fuel tp. unfold accept. apply scope_exit_inflight.
      unfold bind at 1 2. unfold modify.
      unfold processAccept. unfold bind at 1 2. unfold gets.
      match goal with
      | |- context [engineAccept E ?st ?p] =>
          destruct (engineAccept E st p) as [st' actions]
      end.
      unfold bind, modify. apply addProcessingActions_inflight.
      revert Hs. apply oneInFlight_same; reflexivity.
    + intros fuel data level. unfold doHandshake. apply scope_exit_inflight.
      unfold bind at 1 2. unfold modify.
      apply post_bind with (P := oneInFlight); auto.
      * destruct level as [[| | |]|raw]; try exact I; simpl;
          revert Hs; apply oneInFlight_same; reflexivity.
      * intros _ s1 H1. apply post_then_throwIfError.
        apply (inflight_run fuel). exact H1.
    + intros fuel token. unfold writeNewSessionTicket.
      apply scope_exit_inflight.
      unfold bind at 1 2. unfold modify, writeNewSessionTicketToCrypto.
      apply post_then_throwIfError.
      apply (inflight_run fuel).
      revert Hs. apply oneInFlight_same; reflexivity.
    + intros fuel. unfold fulfilFuture, bind, gets, modify.
      destruct (futures_ s) as [|batch rest] eqn:Hf; [exact Hs|].
      apply (inflight_run fuel). simpl.
      destruct Hs as [_ Hlen]. rewrite Hf in Hlen. simpl in Hlen.
      destruct rest; [reflexivity | simpl in Hlen; lia].
Qed.

(** * Further properties of the code *)

(** ** Installing and retrieving ciphers *)

(** X1. Install, then retrieve: after [computeCiphers] for one of the four
    kinds this class keeps, and with no error recorded, the two getters of
    that kind return the AEAD and the header cipher built from the secret,
    each exactly once, and leave both slots empty. *)
Theorem install_then_retrieve (secret : list byte) (s : State E) :
  error_ s = None ->
  let aead := fst (buildCiphers E secret) in
  let header := snd (buildCiphers E secret) in
  (let s1 := computeCiphers HandshakeRead secret s in
   (a <- getHandshakeReadCipher ;; h <- getHandshakeReadHeaderCipher ;;
    ret (a, h)) s1 =
   Returned (Some aead, Some header)
     (set_handshakeReadHeaderCipher_ None
        (set_handshakeReadCipher_ None s1))) /\
  (let s1 := computeCiphers OneRttRead secret s in
   (a <- getOneRttReadCipher ;; h <- getOneRttReadHeaderCipher ;;
    ret (a, h)) s1 =
   Returned (Some aead, Some header)
     (set_oneRttReadHeaderCipher_ None (set_oneRttReadCipher_ None s1))) /\
  (let s1 := computeCiphers OneRttWrite secret s in
   (a <- getOneRttWriteCipher ;; h <- getOneRttWriteHeaderCipher ;;
    ret (a, h)) s1 =
   Returned (Some aead, Some header)
     (set_oneRttWriteHeaderCipher_ None (set_oneRttWriteCipher_ None s1))) /\
  (let s1 := computeCiphers ZeroRttRead secret s in
   (a <- getZeroRttReadCipher ;; h <- getZeroRttReadHeaderCipher ;;
    ret (a, h)) s1 =
   Returned (Some aead, Some header)
     (set_zeroRttReadHeaderCipher_ None (set_zeroRttReadCipher_ None s1))).
Proof.
  intros Herr aead header. subst aead header.
  repeat apply conj; intro s1; subst s1;
    unfold computeCiphers; destruct (buildCiphers E secret) as [a h];
    unfold getHandshakeReadCipher, getHandshakeReadHeaderCipher,
      getOneRttReadCipher, getOneRttReadHeaderCipher,
      getOneRttWriteCipher, getOneRttWriteHeaderCipher,
      getZeroRttReadCipher, getZeroRttReadHeaderCipher,
      bind, throwIfError, moveOut, gets, modify, throw, ret;
    repeat progress (cbn; rewrite ?Herr); reflexivity.
Qed.

(** X2. The handshake write pair goes to the connection: [computeCiphers]
    for [HandshakeWrite] stores both ciphers in the connection object,
    leaves the connection's crypto streams and all eight slots of the
    getters as they were, and marks an event. *)
Theorem handshake_write_goes_to_connection (secret : list byte)
    (s : State E) :
  let s1 := computeCiphers HandshakeWrite secret s in
  handshakeWriteCipher (conn_ s1) = Some (fst (buildCiphers E secret)) /\
  handshakeWriteHeaderCipher (conn_ s1) =
    Some (snd (buildCiphers E secret)) /\
  cryptoState (conn_ s1) = cryptoState (conn_ s) /\
  privateSlots s1 = privateSlots s /\
  handshakeEventAvailable_ s1 = true.
Proof.
  intro s1. subst s1. unfold computeCiphers, privateSlots.
  destruct (buildCiphers E secret) as [a h]. repeat apply conj; reflexivity.
Qed.

(** X3. Installing again replaces: a second [computeCiphers] for the same
    kind before the first pair was taken overwrites it, so the object is
    as if only the second install had happened and the first pair can no
    longer be retrieved. *)
Theorem reinstall_replaces (kind : CipherKind) (first second : list byte)
    (s : State E) :
  computeCiphers kind second (computeCiphers kind first s) =
  computeCiphers kind second s.
Proof.
  unfold computeCiphers.
  destruct (buildCiphers E first) as [a1 h1].
  destruct (buildCiphers E second) as [a2 h2].
  destruct kind; reflexivity.
Qed.

(** ** Where exceptions come from *)

Lemma nothrow_ret {A : Type} (a : A) : nothrow (ret (E:=E) a).
Proof. intro s. exact I. Qed.

Lemma nothrow_gets {A : Type} (f : State E -> A) : nothrow (gets f).
Proof. intro s. exact I. Qed.

Lemma nothrow_modify (f : State E -> State E) : nothrow (modify f).
Proof. intro s. exact I. Qed.

Lemma nothrow_fatal {A : Type} (m : string) :
  nothrow (fatal (E:=E) (A:=A) m).
Proof. intro s. exact I. Qed.

Lemma nothrow_outOfFuel {A : Type} : nothrow (outOfFuel (E:=E) (A:=A)).
Proof. intro s. exact I. Qed.

Lemma nothrow_bind {A B : Type} (c : M E A) (k : A -> M E B) :
  nothrow c -> (forall a, nothrow (k a)) -> nothrow (bind c k).
Proof.
  intros Hc Hk s. unfold bind. specialize (Hc s).
  destruct (c s) as [a s'|e s'|m|s']; auto. apply Hk.
Qed.

Lemma nothrow_scope_exit {A : Type} (f : State E -> State E) (c : M E A) :
  nothrow c -> nothrow (scope_exit f c).
Proof.
  intros Hc s. unfold scope_exit. specialize (Hc s).
  destruct (c s); auto.
Qed.

Lemma nothrow_processCryptoActions (actions : Actions T) :
  nothrow (processCryptoActions (E:=E) actions).
Proof.
  induction actions as [|a rest IH]; simpl; [apply nothrow_ret|].
  apply nothrow_bind; [|intros _; exact IH].
  destruct a as [kind secret|level data|m c| | |p]; simpl;
    try apply nothrow_modify.
  intro s. unfold writeDataToStream.
  destruct (isEarlyData level); [exact I|].
  destruct level; exact I.
Qed.

Lemma nothrow_processSocketData (k : AsyncActions T -> M E unit)
    (b : ReadBufRef) :
  (forall a, nothrow (k a)) -> nothrow (processSocketData k b).
Proof.
  intro Hk. unfold processSocketData.
  apply nothrow_bind; [apply nothrow_gets | intros contents].
  apply nothrow_bind; [apply nothrow_gets | intros st].
  destruct (engineSocketData E st contents) as [[st' taken] actions].
  repeat (apply nothrow_bind; [apply nothrow_modify | intros _]).
  apply Hk.
Qed.

Lemma nothrow_run (fuel : nat) :
  (forall actions, nothrow (processActions (E:=E) fuel actions)) /\
  nothrow (processPendingEvents (E:=E) fuel) /\
  nothrow (pendingEventsLoop (E:=E) fuel) /\
  (forall actions, nothrow (startActions (E:=E) fuel actions)).
Proof.
  induction fuel as [|fuel (IHa & IHp & IHl & IHs)].
  - repeat apply conj; intros; apply nothrow_outOfFuel.
  - repeat apply conj.
    + intro actions. simpl.
      apply nothrow_bind; [apply nothrow_processCryptoActions | intros _].
      apply nothrow_bind; [apply nothrow_modify | intros _].
      apply nothrow_bind; [apply nothrow_gets | intros cb].
      apply nothrow_bind; [apply nothrow_gets | intros inStack].
      apply nothrow_bind; [apply nothrow_gets | intros avail].
      apply nothrow_bind.
      * destruct cb; [destruct (negb inStack && avail)|];
          try apply nothrow_ret; apply nothrow_modify.
      * intros _. apply nothrow_bind; [apply nothrow_modify | intros _].
        exact IHp.
    + simpl. apply nothrow_bind; [apply nothrow_gets | intros [|]].
      * apply nothrow_ret.
      * apply nothrow_bind; [apply nothrow_modify | intros _].
        apply nothrow_scope_exit. exact IHl.
    + simpl. apply nothrow_bind; [apply nothrow_gets | intros guard].
      apply nothrow_bind; [apply nothrow_gets | intros error].
      destruct (negb guard && negb (isSome error)); [|apply nothrow_ret].
      apply nothrow_bind; [apply nothrow_modify | intros _].
      apply nothrow_bind; [apply nothrow_gets | intros wait].
      destruct (negb wait).
      * apply nothrow_bind; [apply nothrow_gets | intros level].
        apply nothrow_bind; [|intros _; exact IHl].
        destruct level as [[| | |]|raw];
          try (apply nothrow_processSocketData; exact IHs).
        apply nothrow_fatal.
      * apply nothrow_bind.
        -- unfold processPendingCryptoEvent.
           apply nothrow_bind; [apply nothrow_gets | intros st].
           destruct (enginePendingCryptoEvent E st) as [[st' actions]|].
           ++ apply nothrow_bind; [apply nothrow_modify | intros _].
              apply nothrow_bind; [apply IHs | intros _; apply nothrow_ret].
           ++ apply nothrow_ret.
        -- intros resumed. destruct (negb resumed); [|exact IHl].
           apply nothrow_modify.
    + intros [batch|batch]; simpl.
      * apply IHa.
      * apply nothrow_modify.
Qed.

Lemma nothrow_addProcessingActions (fuel : nat) (actions : AsyncActions T) :
  nothrow (addProcessingActions (E:=E) fuel actions).
Proof.
  unfold addProcessingActions.
  apply nothrow_bind; [apply nothrow_gets | intros [|]].
  - apply nothrow_modify.
  - apply nothrow_bind; [apply nothrow_modify | intros _].
    apply (nothrow_run fuel).
Qed.

Lemma nothrow_processAccept (fuel : nat) :
  nothrow (processAccept (E:=E) fuel).
Proof.
  unfold processAccept.
  apply nothrow_bind; [apply nothrow_gets | intros st].
  apply nothrow_bind; [apply nothrow_gets | intros tp].
  destruct (engineAccept E st tp) as [st' actions].
  apply nothrow_bind; [apply nothrow_modify | intros _].
  apply nothrow_addProcessingActions.
Qed.

Lemma step_error_kept (s s' : State E) :
  InternalStep s s' -> error_ s <> None -> error_ s' <> None.
Proof.
  intros H Hs. step_cases H; simpl; try exact Hs. discriminate.
Qed.

Lemma steps_error_kept (s s' : State E) :
  Steps s s' -> error_ s <> None -> error_ s' <> None.
Proof.
  intros H Hs.
  refine (steps_invariant (fun x => error_ x <> None) _ H Hs).
  intros x y Hxy Hx. exact (step_error_kept Hxy Hx).
Qed.

Lemma applyAction_reported (a : Action T) (s : State E) :
  match applyAction a s with
  | Returned _ s1 =>
      error_ s <> None \/ (exists m c, a = ReportError m c) ->
      error_ s1 <> None
  | Fatal _ => True
  | Thrown _ _ | OutOfFuel _ => False
  end.
Proof.
  destruct a as [kind secret|level data|m c| | |p]; simpl;
    try (intros [H|(m' & c' & H)]; [exact H|discriminate H]).
  - unfold computeCiphers. destruct (buildCiphers E secret).
    destruct kind; (intros [H|(m' & c' & H)]; [exact H|discriminate H]).
  - unfold writeDataToStream. destruct (isEarlyData level); [exact I|].
    destruct level as [l|raw]; simpl; [|exact I].
    intros [H|(m' & c' & H)]; [exact H|discriminate H].
  - intros _. discriminate.
Qed.

Lemma processCryptoActions_reported (actions : Actions T) (s : State E) :
  match processCryptoActions actions s with
  | Returned _ s1 =>
      error_ s <> None \/ (exists m c, In (ReportError m c) actions) ->
      error_ s1 <> None
  | Fatal _ => True
  | Thrown _ _ | OutOfFuel _ => False
  end.
Proof.
  revert s. induction actions as [|a rest IH]; intro s; simpl.
  - intros [H|(m & c & [])]. exact H.
  - unfold bind. pose proof (applyAction_reported a s) as Ha.
    destruct (applyAction a s) as [[] s1|e s1|m|s1]; try exact Ha.
    specialize (IH s1).
    destruct (processCryptoActions rest s1) as [[] s2|e s2|m|s2];
      try exact IH.
    intros [H|(m & c & [H|H])].
    + apply IH. left. apply Ha. left. exact H.
    + apply IH. left. apply Ha. right. exists m, c. exact H.
    + apply IH. right. exists m, c. exact H.
Qed.

(** X4. A batch's error is recorded, not thrown: [processActions],
    [startActions], [addProcessingActions] and the continuation of a
    deferred batch let no exception escape (the engine hooks and the
    application callback being taken not to throw), and when a batch
    contains an error report, at any position, an error is recorded in
    [error_] once the batch has been applied, wherever the call then
    stops. *)
Theorem completions_never_throw (fuel : nat) :
  (forall actions, nothrow (processActions (E:=E) fuel actions)) /\
  (forall actions, nothrow (startActions (E:=E) fuel actions)) /\
  (forall actions, nothrow (addProcessingActions (E:=E) fuel actions)) /\
  nothrow (fulfilFuture (E:=E) fuel) /\
  (forall actions message code (s : State E),
     In (ReportError message code) actions ->
     post (processActions (S fuel) actions s)
       (fun s' => error_ s' <> None)).
Proof.
  refine (conj _ (conj _ (conj _ (conj _ _)))).
  - apply (nothrow_run fuel).
  - apply (nothrow_run fuel).
  - apply nothrow_addProcessingActions.
  - unfold fulfilFuture.
    apply nothrow_bind; [apply nothrow_gets | intros [|batch rest]].
    + apply nothrow_ret.
    + apply nothrow_bind; [apply nothrow_modify | intros _].
      apply (nothrow_run fuel).
  - intros actions message code s Hin.
    rewrite processActions_unfold. unfold bind.
    pose proof (processCryptoActions_reported actions s) as Hb.
    destruct (processCryptoActions actions s) as [[] s1|e s1|m|s1];
      try contradiction; [|exact I].
    assert (H1 : error_ s1 <> None)
      by (apply Hb; right; exists message, code; exact Hin).
    eapply post_weaken; [|apply internal_processPendingEvents].
    intros s' Hsteps. apply (steps_error_kept Hsteps).
    unfold completed.
    destruct (callback_ s1); [destruct (shouldNotify s1)|]; exact H1.
Qed.

Lemma fulfilFuture_steps (fuel : nat) (s : State E) :
  post (fulfilFuture fuel s)
    (fun s' =>
       s' = s \/
       exists batch rest,
         futures_ s = batch :: rest /\ Steps (set_futures_ rest s) s').
Proof.
  unfold fulfilFuture, bind, gets, modify.
  destruct (futures_ s) as [|batch rest] eqn:Hf; simpl; [left; reflexivity|].
  eapply post_weaken; [|apply internal_processActions].
  intros s' Hsteps. right. exists batch, rest. split; [reflexivity|exact Hsteps].
Qed.

(** X5. A recorded error is never cleared: once [error_] holds an error it
    still holds one (the same or a later one) after any engine completion,
    any [accept], feed or session-ticket call and any
    [addProcessingActions]; nothing in the class resets it. *)
Theorem error_never_cleared (s : State E) :
  error_ s <> None ->
  (forall fuel actions,
     post (processActions fuel actions s) (fun s' => error_ s' <> None)) /\
  (forall fuel, post (fulfilFuture fuel s) (fun s' => error_ s' <> None)) /\
  (forall fuel actions,
     post (addProcessingActions fuel actions s)
       (fun s' => error_ s' <> None)) /\
  (forall fuel transportParams,
     post (accept fuel transportParams s) (fun s' => error_ s' <> None)) /\
  (forall fuel data level,
     post (doHandshake fuel data level s) (fun s' => error_ s' <> None)) /\
  (forall fuel token,
     post (writeNewSessionTicket fuel token s)
       (fun s' => error_ s' <> None)).
Proof.
  intro Herr. refine (conj _ (conj _ (conj _ (conj _ (conj _ _))))).
  - intros fuel actions.
    eapply post_weaken; [|apply internal_processActions].
    intros s' Hsteps. exact (steps_error_kept Hsteps Herr).
  - intros fuel. eapply post_weaken; [|apply fulfilFuture_steps].
    intros s' [-> | (batch & rest & _ & Hsteps)]; [exact Herr|].
    exact (steps_error_kept Hsteps Herr).
  - intros fuel actions.
    eapply post_weaken; [|apply internal_addProcessingActions].
    intros s' Hsteps. exact (steps_error_kept Hsteps Herr).
  - intros fuel tp. eapply post_weaken; [|apply accept_steps].
    intros s' (s2 & Hsteps & Hexit).
    pose proof (steps_error_kept Hsteps Herr) as H2.
    destruct Hexit as [-> | ->]; exact H2.
  - intros fuel data [l|raw]; [|exact I].
    eapply post_weaken; [|apply doHandshake_steps].
    intros s' (s2 & Hsteps & Hexit).
    assert (H2 : error_ s2 <> None)
      by (apply (steps_error_kept Hsteps); destruct l; exact Herr).
    destruct Hexit as [-> | ->]; exact H2.
  - intros fuel token.
    eapply post_weaken; [|apply writeNewSessionTicket_steps].
    intros s' (s2 & Hsteps & Hexit).
    pose proof (steps_error_kept Hsteps Herr) as H2.
    destruct Hexit as [-> | ->]; exact H2.
Qed.

Lemma checked_throwIfError : checked (throwIfError (E:=E)).
Proof.
  intro s. unfold throwIfError, bind, gets, throw, ret.
  destruct (error_ s) as [[m c]|] eqn:Hs; simpl; congruence.
Qed.

Lemma checked_bind {A : Type} (c : M E A) (k : A -> M E unit) :
  nothrow c -> (forall a, checked (k a)) -> checked (bind c k).
Proof.
  intros Hc Hk s. unfold bind. specialize (Hc s).
  destruct (c s) as [a s'|e s'|m|s']; auto; [apply Hk|contradiction].
Qed.

Lemma checked_scope_exit (c : M E unit) :
  checked c -> checked (scope_exit (set_inHandshakeStack_ false) c).
Proof.
  intros Hc s. unfold scope_exit. specialize (Hc s).
  destruct (c s); auto.
Qed.

(** X6. A feed reports exactly the recorded error: [doHandshake] and
    [writeNewSessionTicket] return normally only when no error is recorded
    at the end of the call, and when they throw, the pair thrown is the
    pair held in [error_]; no other exception leaves them. *)
Theorem feed_throws_the_recorded_error :
  (forall fuel data level, checked (doHandshake (E:=E) fuel data level)) /\
  (forall fuel token, checked (writeNewSessionTicket (E:=E) fuel token)).
Proof.
  split.
  - intros fuel data level. unfold doHandshake.
    apply checked_scope_exit.
    apply checked_bind; [apply nothrow_modify | intros _].
    apply checked_bind; [apply nothrow_modify | intros _].
    apply checked_bind;
      [destruct level as [[| | |]|raw];
       try apply nothrow_modify; apply nothrow_fatal | intros _].
    apply checked_bind; [apply (nothrow_run fuel) | intros _].
    apply checked_throwIfError.
  - intros fuel token. unfold writeNewSessionTicket.
    apply checked_scope_exit.
    apply checked_bind; [apply nothrow_modify | intros _].
    apply checked_bind; [apply nothrow_modify | intros _].
    apply checked_bind; [apply (nothrow_run fuel) | intros _].
    apply checked_throwIfError.
Qed.

(** X7. [accept] has no error check: it never throws, and called while an
    action is in flight it still stores the new transport parameters and
    starts the engine's accept step, then returns normally with the
    internal error ("Processing action while pending", INTERNAL_ERROR)
    recorded and the yielded actions dropped. *)
Theorem accept_does_not_throw :
  (forall fuel transportParams, nothrow (accept (E:=E) fuel transportParams)) /\
  (forall fuel transportParams (s : State E),
     actionGuard_ s = true ->
     let pending := ("Processing action while pending", INTERNAL_ERROR) in
     let s' :=
       set_inHandshakeStack_ false
         (onError pending
            (set_engine_ (fst (engineAccept E (engine_ s) transportParams))
               (set_inHandshakeStack_ true
                  (set_transportParams_ transportParams s)))) in
     accept fuel transportParams s = Returned tt s' /\
     error_ s' = Some pending /\
     transportParams_ s' = transportParams /\
     futures_ s' = futures_ s /\
     events_ s' = events_ s).
Proof.
  split.
  - intros fuel tp. unfold accept. apply nothrow_scope_exit.
    apply nothrow_bind; [apply nothrow_modify | intros _].
    apply nothrow_bind; [apply nothrow_modify | intros _].
    apply nothrow_processAccept.
  - intros fuel tp s Hguard pending s'.
    split; [|repeat apply conj; reflexivity].
    subst s'. unfold accept, scope_exit, processAccept, bind, modify, gets.
    simpl.
    destruct (engineAccept E (engine_ s) tp) as [st' actions]. simpl.
    unfold addProcessingActions, bind, gets, modify. simpl.
    rewrite Hguard. reflexivity.
Qed.

(** ** The re-entrancy flags *)

Lemma restores_ret {A : Type} (a : A) : restores (ret (E:=E) a).
Proof. intro s. reflexivity. Qed.

Lemma restores_gets {A : Type} (f : State E -> A) : restores (gets f).
Proof. intro s. reflexivity. Qed.

Lemma restores_fatal {A : Type} (m : string) :
  restores (fatal (E:=E) (A:=A) m).
Proof. intro s. exact I. Qed.

Lemma restores_outOfFuel {A : Type} : restores (outOfFuel (E:=E) (A:=A)).
Proof. intro s. exact I. Qed.

Lemma restores_modify (f : State E -> State E) :
  (forall s, inProcessPendingEvents_ (f s) = inProcessPendingEvents_ s) ->
  restores (modify f).
Proof. intros H s. simpl. apply H. Qed.

Lemma restores_bind {A B : Type} (c : M E A) (k : A -> M E B) :
  restores c -> (forall a, restores (k a)) -> restores (bind c k).
Proof.
  intros Hc Hk s. unfold bind. specialize (Hc s).
  destruct (c s) as [a s1|e s1|m|s1]; simpl in *; auto.
  specialize (Hk a s1). destruct (k a s1); simpl in *; congruence.
Qed.

Lemma restores_scope_exit {A : Type} (f : State E -> State E) (c : M E A) :
  (forall s, inProcessPendingEvents_ (f s) = inProcessPendingEvents_ s) ->
  restores c -> restores (scope_exit f c).
Proof.
  intros Hf Hc s. unfold scope_exit. specialize (Hc s).
  destruct (c s); simpl in *; rewrite ?Hf; auto.
Qed.

Lemma restores_processPendingEvents (fuel : nat) :
  restores (processPendingEvents (E:=E) fuel).
Proof.
  intro s. destruct fuel as [|fuel]; [exact I|]. simpl.
  unfold bind at 1. unfold gets.
  destruct (inProcessPendingEvents_ s) eqn:Hin; [exact Hin|].
  unfold bind, modify, scope_exit.
  destruct (pendingEventsLoop fuel (set_inProcessPendingEvents_ true s));
    simpl; auto.
Qed.

Lemma restores_processCryptoActions (actions : Actions T) :
  restores (processCryptoActions (E:=E) actions).
Proof.
  induction actions as [|a rest IH]; simpl; [apply restores_ret|].
  apply restores_bind; [|intros _; exact IH].
  destruct a as [kind secret|level data|m c| | |p]; simpl;
    try (apply restores_modify; reflexivity).
  - apply restores_modify. intro s. unfold computeCiphers.
    destruct (buildCiphers E secret). destruct kind; reflexivity.
  - intro s. unfold writeDataToStream.
    destruct (isEarlyData level); [exact I|].
    destruct level; [reflexivity|exact I].
Qed.

Lemma restores_processActions (fuel : nat) (actions : Actions T) :
  restores (processActions (E:=E) fuel actions).
Proof.
  destruct fuel as [|fuel]; [apply restores_outOfFuel|]. simpl.
  apply restores_bind; [apply restores_processCryptoActions | intros _].
  apply restores_bind; [apply restores_modify; reflexivity | intros _].
  apply restores_bind; [apply restores_gets | intros cb].
  apply restores_bind; [apply restores_gets | intros inStack].
  apply restores_bind; [apply restores_gets | intros avail].
  apply restores_bind.
  - destruct cb; [destruct (negb inStack && avail)|];
      try apply restores_ret; apply restores_modify; reflexivity.
  - intros _.
    apply restores_bind; [apply restores_modify; reflexivity | intros _].
    apply restores_processPendingEvents.
Qed.

Lemma restores_addProcessingActions (fuel : nat) (actions : AsyncActions T) :
  restores (addProcessingActions (E:=E) fuel actions).
Proof.
  unfold addProcessingActions.
  apply restores_bind; [apply restores_gets | intros [|]].
  - apply restores_modify. reflexivity.
  - apply restores_bind; [apply restores_modify; reflexivity | intros _].
    destruct fuel as [|fuel]; [apply restores_outOfFuel|].
    destruct actions as [batch|batch]; simpl.
    + apply restores_processActions.
    + apply restores_modify. reflexivity.
Qed.

(** X8. The re-entrancy flags are put back on every way out: when
    [accept], [doHandshake] or [writeNewSessionTicket] returns or throws,
    [inHandshakeStack_] is false and [inProcessPendingEvents_] has the
    value it had on entry; the same holds of [inProcessPendingEvents_]
    for [processPendingEvents] and [processActions] themselves. *)
Theorem reentrancy_flags_are_restored :
  (forall fuel transportParams (s : State E),
     finished (accept fuel transportParams s)
       (fun s' =>
          inHandshakeStack_ s' = false /\
          inProcessPendingEvents_ s' = inProcessPendingEvents_ s)) /\
  (forall fuel data level (s : State E),
     finished (doHandshake fuel data level s)
       (fun s' =>
          inHandshakeStack_ s' = false /\
          inProcessPendingEvents_ s' = inProcessPendingEvents_ s)) /\
  (forall fuel token (s : State E),
     finished (writeNewSessionTicket fuel token s)
       (fun s' =>
          inHandshakeStack_ s' = false /\
          inProcessPendingEvents_ s' = inProcessPendingEvents_ s)) /\
  (forall fuel (s : State E),
     finished (processPendingEvents fuel s)
       (fun s' => inProcessPendingEvents_ s' = inProcessPendingEvents_ s)) /\
  (forall fuel actions (s : State E),
     finished (processActions fuel actions s)
       (fun s' => inProcessPendingEvents_ s' = inProcessPendingEvents_ s)).
Proof.
  assert (Hexit : forall (c : M E unit) (s : State E),
            restores c ->
            finished (scope_exit (set_inHandshakeStack_ false) c s)
              (fun s' =>
                 inHandshakeStack_ s' = false /\
                 inProcessPendingEvents_ s' = inProcessPendingEvents_ s)).
  { intros c s Hc. unfold scope_exit. specialize (Hc s).
    destruct (c s); simpl in *; auto. }
  refine (conj _ (conj _ (conj _ (conj _ _)))).
  - intros fuel tp s. unfold accept. apply Hexit.
    apply restores_bind; [apply restores_modify; reflexivity | intros _].
    apply restores_bind; [apply restores_modify; reflexivity | intros _].
    unfold processAccept.
    apply restores_bind; [apply restores_gets | intros st].
    apply restores_bind; [apply restores_gets | intros tp'].
    destruct (engineAccept E st tp') as [st' actions].
    apply restores_bind; [apply restores_modify; reflexivity | intros _].
    apply restores_addProcessingActions.
  - intros fuel data level s. unfold doHandshake. apply Hexit.
    apply restores_bind; [apply restores_modify; reflexivity | intros _].
    apply restores_bind; [apply restores_modify; reflexivity | intros _].
    apply restores_bind.
    + destruct level as [[| | |]|raw]; try apply restores_fatal;
        apply restores_modify; reflexivity.
    + intros _.
      apply restores_bind; [apply restores_processPendingEvents | intros _].
      intro s0. unfold throwIfError, bind, gets, throw, ret.
      destruct (error_ s0); reflexivity.
  - intros fuel token s. unfold writeNewSessionTicket. apply Hexit.
    apply restores_bind; [apply restores_modify; reflexivity | intros _].
    apply restores_bind; [apply restores_modify; reflexivity | intros _].
    apply restores_bind; [apply restores_processPendingEvents | intros _].
    intro s0. unfold throwIfError, bind, gets, throw, ret.
    destruct (error_ s0); reflexivity.
  - intros fuel s. apply restores_processPendingEvents.
  - intros fuel actions s. apply restores_processActions.
Qed.

(** ** When the drain stops *)

Lemma bind_Returned {A B : Type} (c : M E A) (k : A -> M E B)
    (s s' : State E) (b : B) :
  bind c k s = Returned b s' ->
  exists a s1, c s = Returned a s1 /\ k a s1 = Returned b s'.
Proof.
  unfold bind. destruct (c s) as [a s1|e s1|m|s1]; try discriminate.
  intro H. exists a, s1. split; [reflexivity|exact H].
Qed.

Lemma pendingEventsLoop_drained (fuel : nat) (s s' : State E) :
  pendingEventsLoop fuel s = Returned tt s' -> drained s'.
Proof.
  revert s. induction fuel as [|fuel IH]; intros s H; [discriminate H|].
  simpl in H. unfold bind at 1 2 in H. unfold gets in H.
  destruct (actionGuard_ s) eqn:Hg; simpl in H.
  { injection H as <-. left. exact Hg. }
  destruct (error_ s) as [e|] eqn:He; simpl in H.
  { injection H as <-. right. left. congruence. }
  unfold bind at 1 in H. unfold modify in H.
  unfold bind at 1 in H. unfold gets in H. simpl in H.
  destruct (waitForData_ s) eqn:Hw; simpl in H.
  - apply bind_Returned in H. destruct H as (resumed & s1 & Hp & Hk).
    unfold processPendingCryptoEvent in Hp.
    unfold bind at 1 in Hp. unfold gets in Hp. simpl in Hp.
    destruct (enginePendingCryptoEvent E (engine_ s))
      as [[st' actions]|] eqn:Hev.
    + apply bind_Returned in Hp. destruct Hp as ([] & s2 & _ & Hp).
      apply bind_Returned in Hp. destruct Hp as ([] & s3 & _ & Hp).
      injection Hp as <- <-. simpl in Hk. exact (IH _ Hk).
    + injection Hp as <- <-. simpl in Hk. injection Hk as <-.
      right. right. repeat apply conj; simpl; try reflexivity; assumption.
  - apply bind_Returned in H. destruct H as (level & s1 & _ & H).
    apply bind_Returned in H. destruct H as ([] & s2 & _ & H).
    exact (IH _ H).
Qed.

(** X9. The drain stops only when it is stuck: whenever the loop of
    [processPendingEvents] returns, an action is in flight, or an error is
    recorded, or the engine has asked for more data and has no deferred
    crypto event to resume (and then the guard has been released).  The
    same holds when [processPendingEvents] returns from a call that was
    not nested in the drain ([inProcessPendingEvents_] false on entry),
    and a feed entered that way that returns normally leaves an action in
    flight or an engine waiting for data. *)
Theorem drain_stops_only_when_stuck :
  (forall fuel (s s' : State E),
     pendingEventsLoop fuel s = Returned tt s' -> drained s') /\
  (forall fuel (s s' : State E),
     inProcessPendingEvents_ s = false ->
     processPendingEvents fuel s = Returned tt s' -> drained s') /\
  (forall fuel data level (s s' : State E),
     inProcessPendingEvents_ s = false ->
     doHandshake fuel data level s = Returned tt s' ->
     actionGuard_ s' = true \/
     (waitForData_ s' = true /\ actionGuard_ s' = false /\
      enginePendingCryptoEvent E (engine_ s') = None)).
Proof.
  assert (Hppe : forall fuel (s s' : State E),
            inProcessPendingEvents_ s = false ->
            processPendingEvents fuel s = Returned tt s' ->
            exists s1, drained s1 /\ s' = set_inProcessPendingEvents_ false s1).
  { intros fuel s s' Hin H. destruct fuel as [|fuel]; [discriminate H|].
    simpl in H. unfold bind at 1 in H. unfold gets in H. rewrite Hin in H.
    unfold bind, modify, scope_exit in H.
    destruct (pendingEventsLoop fuel (set_inProcessPendingEvents_ true s))
      as [[] s1|e s1|m|s1] eqn:Hloop; try discriminate.
    injection H as <-. exists s1. split; [|reflexivity].
    exact (pendingEventsLoop_drained _ _ Hloop). }
  refine (conj pendingEventsLoop_drained (conj _ _)).
  - intros fuel s s' Hin H.
    destruct (Hppe fuel s s' Hin H) as (s1 & Hd & ->). exact Hd.
  - intros fuel data level s s' Hin H.
    unfold doHandshake, scope_exit in H.
    match type of H with
    | match ?c s with _ => _ end = _ =>
        destruct (c s) as [[] s1|e s1|m|s1] eqn:Hbody; try discriminate
    end.
    injection H as <-.
    apply bind_Returned in Hbody. destruct Hbody as ([] & s2 & H2 & Hbody).
    apply bind_Returned in Hbody. destruct Hbody as ([] & s3 & H3 & Hbody).
    apply bind_Returned in Hbody. destruct Hbody as ([] & s4 & H4 & Hbody).
    apply bind_Returned in Hbody. destruct Hbody as ([] & s5 & H5 & Hbody).
    unfold modify in H2, H3. injection H2 as <-. injection H3 as <-.
    assert (Hin4 : inProcessPendingEvents_ s4 = false).
    { destruct level as [[| | |]|raw]; simpl in H4;
        try discriminate H4; unfold appendBuf, modify in H4;
        injection H4 as <-; exact Hin. }
    destruct (Hppe fuel s4 s5 Hin4 H5) as (s6 & Hd & ->).
    unfold throwIfError, bind, gets, throw, ret in Hbody. simpl in Hbody.
    destruct (error_ s6) as [e|] eqn:He; [discriminate Hbody|].
    injection Hbody as <-. simpl.
    destruct Hd as [Hg | [Herr | Hblocked]];
      [left; exact Hg | congruence | right; exact Hblocked].
Qed.

(** X10. A blocked drain does nothing: with no action in flight, no
    error, the engine waiting for data and no deferred crypto event to
    resume, [processPendingEvents] returns at once, hands nothing to the
    engine, and leaves the object exactly as it found it. *)
Theorem blocked_drain_is_a_no_op (fuel : nat) (s : State E) :
  actionGuard_ s = false ->
  error_ s = None ->
  waitForData_ s = true ->
  enginePendingCryptoEvent E (engine_ s) = None ->
  processPendingEvents (S (S fuel)) s = Returned tt s.
Proof.
  intros Hg He Hw Hev.
  simpl. unfold bind at 1. unfold gets.
  destruct (inProcessPendingEvents_ s) eqn:Hin; [reflexivity|].
  unfold bind, modify, scope_exit, gets, processPendingCryptoEvent, bind, gets.
  simpl. rewrite Hg, He. simpl. rewrite Hw. simpl. rewrite Hev. simpl.
  destruct s; simpl in *; subst; reflexivity.
Qed.

(** X11. An engine read level outside the four enumerators stops the
    process: with the drain free to run, [processPendingEvents] ends in
    the fatal "Unhandled EncryptionLevel", and so does any feed, since a
    feed clears [waitForData_] before draining. *)
Theorem unknown_engine_level_is_fatal (fuel : nat) (raw : N) (s : State E) :
  inProcessPendingEvents_ s = false ->
  actionGuard_ s = false ->
  error_ s = None ->
  engineReadLevel E (engine_ s) = OutOfRange raw ->
  (waitForData_ s = false ->
   processPendingEvents (S (S fuel)) s = Fatal "Unhandled EncryptionLevel") /\
  (forall data l,
     doHandshake (S (S fuel)) data (Enumerator l) s =
       Fatal "Unhandled EncryptionLevel").
Proof.
  intros Hin Hg He Hlevel. split.
  - intro Hw. simpl. unfold bind at 1. unfold gets. rewrite Hin.
    unfold bind, modify, scope_exit, gets,
      getReadRecordLayerEncryptionLevel, gets.
    simpl. rewrite Hg, He. simpl. rewrite Hw. simpl. rewrite Hlevel.
    reflexivity.
  - intros data l. unfold doHandshake, scope_exit.
    unfold bind at 1 2 3. unfold modify, appendBuf, modify.
    destruct l; simpl; unfold bind at 1; simpl;
      unfold bind at 1; unfold gets; simpl; rewrite Hin;
      unfold bind, modify, scope_exit, gets,
        getReadRecordLayerEncryptionLevel, gets;
      simpl; rewrite Hg, He; simpl; rewrite Hlevel; reflexivity.
Qed.

(** ** What reaches the engine and the application *)

Lemma step_events_extend (s s' : State E) :
  InternalStep s s' -> exists rest, events_ s' = events_ s ++ rest.
Proof.
  intros H. step_cases H; simpl;
    try (exists []; rewrite app_nil_r; reflexivity);
    eexists; reflexivity.
Qed.

Lemma steps_events_extend (s s' : State E) :
  Steps s s' -> exists rest, events_ s' = events_ s ++ rest.
Proof.
  intro H. induction H as [s|s s1 s2 H1 _ [r2 IH]].
  - exists []. rewrite app_nil_r. reflexivity.
  - destruct (step_events_extend H1) as [r1 Hr1].
    exists (r1 ++ r2). rewrite IH, Hr1, app_assoc. reflexivity.
Qed.

(** X12. Only a feed adds bytes and only the engine removes them: for
    every read buffer, the bytes the engine has taken so far followed by
    the bytes still buffered are the same before and after [accept],
    [writeNewSessionTicket], [addProcessingActions], an engine completion
    and the completion of a deferred batch. *)
Theorem only_feeds_add_bytes (b : ReadBufRef) (s : State E) :
  (forall fuel transportParams,
     post (accept fuel transportParams s)
       (fun s' => presented b s' = presented b s)) /\
  (forall fuel token,
     post (writeNewSessionTicket fuel token s)
       (fun s' => presented b s' = presented b s)) /\
  (forall fuel actions,
     post (addProcessingActions fuel actions s)
       (fun s' => presented b s' = presented b s)) /\
  (forall fuel actions,
     post (processActions fuel actions s)
       (fun s' => presented b s' = presented b s)) /\
  (forall fuel,
     post (fulfilFuture fuel s) (fun s' => presented b s' = presented b s)).
Proof.
  refine (conj _ (conj _ (conj _ (conj _ _)))).
  - intros fuel tp. eapply post_weaken; [|apply accept_steps].
    intros s' (s2 & Hsteps & Hexit).
    assert (H2 : presented b s2 = presented b s)
      by (rewrite (steps_presented b Hsteps); unfold presented;
          destruct b; reflexivity).
    destruct Hexit as [-> | ->]; [exact H2|].
    rewrite <- H2. unfold presented. destruct b; reflexivity.
  - intros fuel token.
    eapply post_weaken; [|apply writeNewSessionTicket_steps].
    intros s' (s2 & Hsteps & Hexit).
    assert (H2 : presented b s2 = presented b s)
      by (rewrite (steps_presented b Hsteps); unfold presented;
          destruct b; reflexivity).
    destruct Hexit as [-> | ->]; [exact H2|].
    rewrite <- H2. unfold presented. destruct b; reflexivity.
  - intros fuel actions.
    eapply post_weaken; [|apply internal_addProcessingActions].
    intros s' Hsteps. exact (steps_presented b Hsteps).
  - intros fuel actions.
    eapply post_weaken; [|apply internal_processActions].
    intros s' Hsteps. exact (steps_presented b Hsteps).
  - intros fuel. eapply post_weaken; [|apply fulfilFuture_steps].
    intros s' [-> | (batch & rest & _ & Hsteps)]; [reflexivity|].
    rewrite (steps_presented b Hsteps).
    unfold presented. destruct b; reflexivity.
Qed.

Lemma drain_first_read (fuel : nat) (l : EncryptionLevel) (s : State E) :
  inProcessPendingEvents_ s = false ->
  actionGuard_ s = false ->
  error_ s = None ->
  waitForData_ s = false ->
  engineReadLevel E (engine_ s) = Enumerator l ->
  post (processPendingEvents (S (S fuel)) s)
    (fun s' =>
       exists rest,
         events_ s' =
         events_ s ++
         EngineRead (levelBuf l) (readBuf (levelBuf l) s)
           (snd (fst (engineSocketData E (engine_ s)
                        (readBuf (levelBuf l) s)))) :: rest).
Proof.
  intros Hin Hg He Hw Hlevel.
  set (b := levelBuf l).
  set (Q := fun s' : State E =>
              exists rest,
                events_ s' =
                events_ s ++
                EngineRead b (readBuf b s)
                  (snd (fst (engineSocketData E (engine_ s) (readBuf b s))))
                :: rest).
  assert (Hloop : post (pendingEventsLoop (S fuel)
                          (set_inProcessPendingEvents_ true s)) Q).
  { simpl. unfold bind at 1 2. unfold gets. simpl. rewrite Hg, He. simpl.
    unfold bind at 1. unfold modify. unfold bind at 1. unfold gets. simpl.
    rewrite Hw. simpl.
    unfold bind at 1. unfold getReadRecordLayerEncryptionLevel, gets. simpl.
    rewrite Hlevel.
    apply post_bind with (P := Q); auto.
    - assert (Hread : post (processSocketData (startActions fuel) b
                              (set_actionGuard_ true
                                 (set_inProcessPendingEvents_ true s))) Q).
      { unfold processSocketData, bind, gets, log, modify. simpl.
        replace (readBuf b (set_actionGuard_ true
                              (set_inProcessPendingEvents_ true s)))
          with (readBuf b s) by (destruct b; reflexivity).
        destruct (engineSocketData E (engine_ s) (readBuf b s))
          as [[st' taken] actions]. simpl.
        eapply post_weaken; [|apply internal_startActions].
        intros s' Hsteps.
        destruct (steps_events_extend Hsteps) as [rest Hrest].
        exists rest. rewrite Hrest. subst b.
        destruct (levelBuf l); simpl; rewrite <- app_assoc; reflexivity. }
      subst b. destruct l; exact Hread.
    - intros _ s1 [rest Hrest].
      eapply post_weaken; [|apply internal_run].
      intros s' Hsteps.
      destruct (steps_events_extend Hsteps) as [rest' Hrest'].
      exists (rest ++ rest'). rewrite Hrest', Hrest, <- app_assoc.
      reflexivity. }
  simpl. unfold bind at 1. unfold gets. rewrite Hin.
  unfold bind, modify.
  eapply post_weaken; [|apply post_scope_exit; exact Hloop].
  intros s' (s2 & H2 & [-> | ->]); exact H2.
Qed.

Lemma doHandshake_first_read (fuel : nat) (data : list byte)
    (l expected : EncryptionLevel) (s : State E) :
  inProcessPendingEvents_ s = false ->
  actionGuard_ s = false ->
  error_ s = None ->
  engineReadLevel E (engine_ s) = Enumerator expected ->
  let b := levelBuf expected in
  let contents :=
    readBuf b s ++ (if ReadBufRef_eqb b (levelBuf l) then data else []) in
  post (doHandshake (S (S fuel)) data (Enumerator l) s)
    (fun s' =>
       exists rest,
         events_ s' =
         events_ s ++
         EngineRead b contents
           (snd (fst (engineSocketData E (engine_ s) contents))) :: rest).
Proof.
  intros Hin Hg He Hlevel b contents.
  set (s1 := set_readBuf (levelBuf l) (readBuf (levelBuf l) s ++ data)
               (set_waitForData_ false (set_inHandshakeStack_ true s))).
  assert (Hc : readBuf b s1 = contents).
  { subst s1 contents b. destruct l, expected; simpl;
      rewrite ?app_nil_r; reflexivity. }
  assert (Hdrain := @drain_first_read fuel expected s1).
  fold b in Hdrain. rewrite Hc in Hdrain.
  replace (engine_ s1) with (engine_ s) in Hdrain
    by (subst s1; destruct l; reflexivity).
  replace (events_ s1) with (events_ s) in Hdrain
    by (subst s1; destruct l; reflexivity).
  unfold doHandshake.
  eapply post_weaken; [|apply post_scope_exit].
  - intros s' (s2 & H2 & [-> | ->]); exact H2.
  - replace ((modify (set_inHandshakeStack_ true);;
              modify (set_waitForData_ false);;
              match Enumerator l with
              | Enumerator Initial => appendBuf initialReadBuf data
              | Enumerator Handshake => appendBuf handshakeReadBuf data
              | Enumerator EarlyData | Enumerator AppData =>
                  appendBuf appDataReadBuf data
              | OutOfRange _ => fatal "Unhandled EncryptionLevel"
              end;; processPendingEvents (S (S fuel));; throwIfError) s)
      with ((processPendingEvents (S (S fuel));; throwIfError) s1)
      by (subst s1; destruct l; reflexivity).
    apply post_then_throwIfError.
    apply Hdrain; subst s1; destruct l; simpl; assumption || reflexivity.
Qed.

Lemma applyAction_flag (a : Action T) (s : State E) :
  match applyAction a s with
  | Returned _ s1 =>
      callback_ s1 = callback_ s /\
      inHandshakeStack_ s1 = inHandshakeStack_ s /\
      events_ s1 = events_ s /\
      (handshakeEventAvailable_ s = true \/ raisesEvent a = true ->
       handshakeEventAvailable_ s1 = true)
  | Fatal _ => True
  | Thrown _ _ | OutOfFuel _ => False
  end.
Proof.
  destruct a as [kind secret|level data|m c| | |p]; simpl;
    try (repeat apply conj; try reflexivity; intros [H|H];
         [exact H | discriminate H || reflexivity]).
  - unfold computeCiphers. destruct (buildCiphers E secret).
    destruct kind; repeat apply conj; reflexivity.
  - unfold writeDataToStream. destruct (isEarlyData level); [exact I|].
    destruct level as [l|raw]; simpl; [|exact I].
    repeat apply conj; try reflexivity.
    intros [H|H]; [exact H | discriminate H].
  - repeat apply conj; reflexivity.
  - repeat apply conj; reflexivity.
Qed.

Lemma processCryptoActions_flag (actions : Actions T) (s : State E) :
  match processCryptoActions actions s with
  | Returned _ s1 =>
      callback_ s1 = callback_ s /\
      inHandshakeStack_ s1 = inHandshakeStack_ s /\
      events_ s1 = events_ s /\
      (handshakeEventAvailable_ s = true \/
       existsb (raisesEvent (T:=T)) actions = true ->
       handshakeEventAvailable_ s1 = true)
  | Fatal _ => True
  | Thrown _ _ | OutOfFuel _ => False
  end.
Proof.
  revert s. induction actions as [|a rest IH]; intro s; simpl.
  - repeat apply conj; try reflexivity. intros [H|H]; [exact H|discriminate H].
  - unfold bind. pose proof (applyAction_flag a s) as Ha.
    destruct (applyAction a s) as [[] s1|e s1|m|s1]; try exact Ha.
    destruct Ha as (Hc & Hi & He & Hf).
    specialize (IH s1).
    destruct (processCryptoActions rest s1) as [[] s2|e s2|m|s2];
      try exact IH.
    destruct IH as (Hc2 & Hi2 & He2 & Hf2).
    repeat apply conj; try congruence.
    intros [H|H].
    + apply Hf2. left. apply Hf. left. exact H.
    + apply orb_true_iff in H. destruct H as [H|H].
      * apply Hf2. left. apply Hf. right. exact H.
      * apply Hf2. right. exact H.
Qed.

(** X14. What a completed batch reports reaches the application: if a
    callback is registered and the completion is not inside a top-level
    call, then a batch that installs a cipher, reports an error or reports
    handshake success makes [processActions] invoke the callback, and
    that is the first thing it does to the outside after applying the
    batch. *)
Theorem reported_events_reach_the_callback (fuel : nat) (batch : Actions T)
    (cb : HandshakeCallback T) (s : State E) :
  callback_ s = Some cb ->
  inHandshakeStack_ s = false ->
  existsb (raisesEvent (T:=T)) batch = true ->
  post (processActions (S fuel) batch s)
    (fun s' =>
       exists rest,
         events_ s' = events_ s ++ onCryptoEventAvailable cb :: rest).
Proof.
  intros Hcb Hin Hraise. rewrite processActions_unfold. unfold bind.
  pose proof (processCryptoActions_flag batch s) as Hb.
  destruct (processCryptoActions batch s) as [[] s1|e s1|m|s1];
    try contradiction; [|exact I].
  destruct Hb as (Hc & Hi & He & Hf).
  assert (Hflag : handshakeEventAvailable_ s1 = true)
    by (apply Hf; right; exact Hraise).
  eapply post_weaken; [|apply internal_processPendingEvents].
  intros s' Hsteps. destruct (steps_events_extend Hsteps) as [rest Hrest].
  exists rest. rewrite Hrest. unfold completed, shouldNotify.
  rewrite Hc, Hcb, Hi, Hin, Hflag. simpl.
  rewrite He, <- app_assoc. reflexivity.
Qed.

(** X15. A session ticket written while an action is in flight is only
    queued: [writeNewSessionTicket] passes the token to the engine, the
    drain does not run, and the call ends at once, normally if no error
    is recorded and with the recorded error otherwise; nothing but the
    engine state changes. *)
Theorem ticket_in_flight_is_queued (fuel : nat) (token : AppToken T)
    (s : State E) :
  actionGuard_ s = true ->
  let s' :=
    set_inHandshakeStack_ false
      (set_engine_ (engineNewSessionTicket E token (engine_ s)) s) in
  writeNewSessionTicket (S (S fuel)) token s =
    match error_ s with
    | Some e => Thrown e s'
    | None => Returned tt s'
    end.
Proof.
  intros Hguard s'.
  set (s1 := set_engine_ (engineNewSessionTicket E token (engine_ s))
               (set_inHandshakeStack_ true s)).
  assert (Hdrain : processPendingEvents (S (S fuel)) s1 = Returned tt s1)
    by (apply processPendingEvents_idle; left; exact Hguard).
  unfold writeNewSessionTicket, scope_exit.
  change ((modify (set_inHandshakeStack_ true);;
           writeNewSessionTicketToCrypto token;;
           processPendingEvents (S (S fuel));; throwIfError) s)
    with ((processPendingEvents (S (S fuel));; throwIfError) s1).
  unfold bind. rewrite Hdrain.
  unfold throwIfError, bind, gets, throw, ret.
  replace (error_ s1) with (error_ s) by reflexivity.
  destruct (error_ s) as [[m c]|]; subst s1 s'; destruct s; reflexivity.
Qed.

(** ** Events raised inside a feed *)

Lemma post_finished {A : Type} (o : Outcome E A) (Q : State E -> Prop) :
  post o Q -> finished o Q.
Proof. destruct o; simpl; auto. Qed.

Lemma finished_bind {A B : Type} (c : M E A) (k : A -> M E B) (s : State E)
    (P Q : State E -> Prop) :
  nothrow c ->
  finished (c s) P ->
  (forall a s', P s' -> finished (k a s') Q) ->
  finished (bind c k s) Q.
Proof.
  intros Hn Hc Hk. unfold bind. specialize (Hn s).
  destruct (c s) as [a s'|e s'|m|s']; simpl in *; auto. contradiction.
Qed.

Lemma flag_run (fuel : nat) :
  (forall actions (s : State E),
     finished (processActions fuel actions s)
       (fun s' => handshakeEventAvailable_ s' = false)) /\
  (forall s : State E,
     handshakeEventAvailable_ s = false ->
     finished (processPendingEvents fuel s)
       (fun s' => handshakeEventAvailable_ s' = false)) /\
  (forall s : State E,
     handshakeEventAvailable_ s = false ->
     finished (pendingEventsLoop fuel s)
       (fun s' => handshakeEventAvailable_ s' = false)) /\
  (forall actions (s : State E),
     handshakeEventAvailable_ s = false ->
     finished (startActions fuel actions s)
       (fun s' => handshakeEventAvailable_ s' = false)).
Proof.
  induction fuel as [|fuel (IHa & IHp & IHl & IHs)].
  - repeat apply conj; intros; exact I.
  - repeat apply conj.
    + intros actions s. rewrite processActions_unfold.
      apply finished_bind with (P := fun _ => True);
        [apply nothrow_processCryptoActions | |].
      * destruct (processCryptoActions actions s); exact I.
      * intros _ s1 _. apply IHp. reflexivity.
    + intros s Hs. simpl. unfold bind at 1. unfold gets.
      destruct (inProcessPendingEvents_ s); [exact Hs|].
      unfold bind, modify, scope_exit.
      specialize (IHl (set_inProcessPendingEvents_ true s) Hs).
      destruct (pendingEventsLoop fuel (set_inProcessPendingEvents_ true s));
        simpl in *; auto.
    + intros s Hs. simpl. unfold bind at 1 2. unfold gets.
      destruct (negb (actionGuard_ s) && negb (isSome (error_ s)));
        [|exact Hs].
      unfold bind at 1. unfold modify.
      unfold bind at 1. unfold gets. simpl.
      destruct (waitForData_ s); simpl.
      * unfold processPendingCryptoEvent. unfold bind at 1 2. unfold gets.
        simpl.
        destruct (enginePendingCryptoEvent E (engine_ s))
          as [[st' actions]|]; [|exact Hs].
        unfold bind, modify, ret.
        pose proof (IHs actions (set_engine_ st' (set_actionGuard_ true s)) Hs)
          as Hrun.
        pose proof (proj2 (proj2 (proj2 (nothrow_run fuel))) actions
                      (set_engine_ st' (set_actionGuard_ true s))) as Hn.
        destruct (startActions fuel actions
                    (set_engine_ st' (set_actionGuard_ true s)))
          as [[] s'|e s'|m|s']; simpl in *; auto; contradiction.
      * unfold bind at 1. unfold getReadRecordLayerEncryptionLevel, gets.
        apply finished_bind
          with (P := fun s' : State E => handshakeEventAvailable_ s' = false).
        -- destruct (engineReadLevel E (engine_ (set_actionGuard_ true s)))
             as [[| | |]|raw]; try apply nothrow_fatal;
             apply nothrow_processSocketData;
             apply (nothrow_run fuel).
        -- destruct (engineReadLevel E (engine_ (set_actionGuard_ true s)))
             as [[| | |]|raw]; try exact I;
             unfold processSocketData, bind, gets, log, modify; simpl;
             match goal with
             | |- context [engineSocketData E ?st ?buf] =>
                 destruct (engineSocketData E st buf) as [[st' taken] actions]
             end;
             apply IHs; exact Hs.
        -- intros _ s1 H1. apply IHl. exact H1.
    + intros [batch|batch] s Hs; simpl.
      * apply IHa.
      * exact Hs.
Qed.

(** X17. A feed consumes the events it raises: if no event is pending when
    [doHandshake] or [writeNewSessionTicket] is entered, then whatever the
    engine installed or reported during the call, the call comes back
    with [handshakeEventAvailable_] cleared and without having invoked
    the callback, so those events are not delivered through the callback
    later either. *)
Theorem feed_consumes_its_events (s : State E) :
  handshakeEventAvailable_ s = false ->
  (forall fuel data level,
     finished (doHandshake fuel data level s)
       (fun s' =>
          handshakeEventAvailable_ s' = false /\
          notifications s' = notifications s)) /\
  (forall fuel token,
     finished (writeNewSessionTicket fuel token s)
       (fun s' =>
          handshakeEventAvailable_ s' = false /\
          notifications s' = notifications s)).
Proof.
  intro Hs.
  assert (Htail : forall fuel (s1 : State E),
            handshakeEventAvailable_ s1 = false ->
            finished
              (scope_exit (set_inHandshakeStack_ false)
                 (processPendingEvents fuel ;; throwIfError) s1)
              (fun s' => handshakeEventAvailable_ s' = false)).
  { intros fuel s1 H1. unfold scope_exit, bind.
    pose proof (proj1 (proj2 (flag_run fuel)) s1 H1) as Hrun.
    pose proof (proj1 (proj2 (nothrow_run fuel)) s1) as Hn.
    destruct (processPendingEvents fuel s1) as [[] s2|e s2|m|s2];
      simpl in *; auto.
    unfold throwIfError, bind, gets, throw, ret.
    destruct (error_ s2); simpl; exact Hrun. }
  split.
  - intros fuel data [l|raw]; [|exact I].
    assert (Hn : finished (doHandshake fuel data (Enumerator l) s)
                   (fun s' => notifications s' = notifications s)).
    { apply post_finished.
      eapply post_weaken; [|apply doHandshake_steps].
      intros s' (s2 & Hsteps & Hexit).
      destruct (steps_in_stack Hsteps) as [_ Hn];
        [destruct l; reflexivity|].
      replace (notifications s) with (notifications s2)
        by (rewrite Hn; destruct l; reflexivity).
      destruct Hexit as [-> | ->]; reflexivity. }
    assert (Hf : finished (doHandshake fuel data (Enumerator l) s)
                   (fun s' => handshakeEventAvailable_ s' = false)).
    { unfold doHandshake.
      set (s1 := set_readBuf (levelBuf l) (readBuf (levelBuf l) s ++ data)
                   (set_waitForData_ false (set_inHandshakeStack_ true s))).
      specialize (Htail fuel s1).
      unfold scope_exit in *.
      replace ((modify (set_inHandshakeStack_ true);;
                modify (set_waitForData_ false);;
                match Enumerator l with
                | Enumerator Initial => appendBuf initialReadBuf data
                | Enumerator Handshake => appendBuf handshakeReadBuf data
                | Enumerator EarlyData | Enumerator AppData =>
                    appendBuf appDataReadBuf data
                | OutOfRange _ => fatal "Unhandled EncryptionLevel"
                end;; processPendingEvents fuel;; throwIfError) s)
        with ((processPendingEvents fuel;; throwIfError) s1)
        by (subst s1; destruct l; reflexivity).
      apply Htail. subst s1. destruct l; exact Hs. }
    destruct (doHandshake fuel data (Enumerator l) s); simpl in *; auto.
  - intros fuel token.
    assert (Hn : finished (writeNewSessionTicket fuel token s)
                   (fun s' => notifications s' = notifications s)).
    { apply post_finished.
      eapply post_weaken; [|apply writeNewSessionTicket_steps].
      intros s' (s2 & Hsteps & Hexit).
      destruct (steps_in_stack Hsteps) as [_ Hn]; [reflexivity|].
      replace (notifications s) with (notifications s2) by exact Hn.
      destruct Hexit as [-> | ->]; reflexivity. }
    assert (Hf : finished (writeNewSessionTicket fuel token s)
                   (fun s' => handshakeEventAvailable_ s' = false)).
    { unfold writeNewSessionTicket.
      change ((modify (set_inHandshakeStack_ true);;
               writeNewSessionTicketToCrypto token;;
               processPendingEvents fuel;; throwIfError) s)
        with ((processPendingEvents fuel;; throwIfError)
                (set_engine_ (engineNewSessionTicket E token (engine_ s))
                   (set_inHandshakeStack_ true s))).
      apply Htail. exact Hs. }
    destruct (writeNewSessionTicket fuel token s); simpl in *; auto.
Qed.

(** * Errors, completion and the read buffers *)

(** ** Shared facts about a recorded error *)

Lemma post_and {A : Type} (o : Outcome E A) (P Q : State E -> Prop) :
  post o P -> post o Q -> post o (fun s => P s /\ Q s).
Proof. destruct o; simpl; auto. Qed.

Lemma applyAction_local (a : Action T) (s : State E) :
  post (applyAction a s)
    (fun s1 => events_ s1 = events_ s /\ forall b, readBuf b s1 = readBuf b s).
Proof.
  destruct a as [kind secret|level data|m c| | |p]; simpl;
    try (split; [reflexivity | intros []; reflexivity]).
  - unfold computeCiphers. destruct (buildCiphers E secret).
    destruct kind; (split; [reflexivity | intros []; reflexivity]).
  - unfold writeDataToStream. destruct (isEarlyData level); [exact I|].
    destruct level as [l|raw]; simpl; [|exact I].
    split; [reflexivity | intros []; reflexivity].
Qed.

Lemma processCryptoActions_local (actions : Actions T) (s : State E) :
  post (processCryptoActions actions s)
    (fun s1 => events_ s1 = events_ s /\ forall b, readBuf b s1 = readBuf b s).
Proof.
  revert s. induction actions as [|a rest IH]; intro s; simpl.
  - split; [reflexivity | intros []; reflexivity].
  - eapply post_bind with
      (P := fun s1 => events_ s1 = events_ s /\
                      forall b, readBuf b s1 = readBuf b s).
    + apply applyAction_local.
    + auto.
    + intros _ s1 [He Hb]. eapply post_weaken; [|apply IH].
      intros s2 [He2 Hb2]. split; [congruence|].
      intro b. rewrite Hb2. apply Hb.
Qed.

Lemma errorHeld_refl (s : State E) : error_ s <> None -> errorHeld s s.
Proof. intro H. repeat split. exact H. Qed.

Lemma errorHeld_trans (s1 s2 s3 : State E) :
  errorHeld s1 s2 -> errorHeld s2 s3 -> errorHeld s1 s3.
Proof.
  intros (_ & Hr & Hb) (He & Hr' & Hb'). repeat split.
  - exact He.
  - congruence.
  - intro b. rewrite Hb'. apply Hb.
Qed.

Lemma errorHeld_same (s s' : State E) :
  error_ s' <> None -> events_ s' = events_ s ->
  (forall b, readBuf b s' = readBuf b s) -> errorHeld s s'.
Proof.
  intros He Hev Hb. repeat split; try assumption.
  unfold engineReads. rewrite Hev. reflexivity.
Qed.

Lemma errored_processPendingEvents (fuel : nat) (s : State E) :
  error_ s <> None -> post (processPendingEvents fuel s) (errorHeld s).
Proof.
  intro He. destruct fuel as [|fuel]; [apply errorHeld_refl; exact He|].
  simpl. unfold bind at 1. unfold gets.
  destruct (inProcessPendingEvents_ s); [apply errorHeld_refl; exact He|].
  unfold bind, modify, scope_exit.
  destruct fuel as [|fuel].
  - simpl. apply errorHeld_same; [exact He | reflexivity | intros []; reflexivity].
  - simpl. unfold bind, gets. simpl.
    destruct (error_ s) as [e|] eqn:Hs; [|congruence].
    simpl. rewrite andb_false_r. simpl.
    apply errorHeld_same;
      [simpl; congruence | reflexivity | intros []; reflexivity].
Qed.

Lemma completed_errorHeld (s1 : State E) :
  error_ s1 <> None -> errorHeld s1 (completed s1).
Proof.
  intro He. unfold completed.
  destruct (callback_ s1) as [cb|]; [destruct (shouldNotify s1)|];
    repeat split; try exact He; try (intros []; reflexivity).
  unfold engineReads. simpl. rewrite filter_app. simpl.
  rewrite app_nil_r. reflexivity.
Qed.

Lemma errored_processActions (fuel : nat) (actions : Actions T)
    (s : State E) :
  error_ s <> None -> post (processActions fuel actions s) (errorHeld s).
Proof.
  intro He. destruct fuel as [|fuel]; [apply errorHeld_refl; exact He|].
  rewrite processActions_unfold.
  eapply post_bind with (P := errorHeld s).
  - eapply post_weaken;
      [|apply post_and;
        [apply internal_processCryptoActions
        |apply processCryptoActions_local]].
    intros s1 [Hsteps [Hev Hb]].
    apply errorHeld_same; [exact (steps_error_kept Hsteps He) | exact Hev | exact Hb].
  - auto.
  - intros _ s1 H1.
    assert (He1 : error_ s1 <> None) by apply H1.
    eapply post_weaken; [|apply errored_processPendingEvents].
    + intros s2 H2. eapply errorHeld_trans; [exact H1|].
      eapply errorHeld_trans; [apply completed_errorHeld; exact He1|exact H2].
    + destruct (completed_errorHeld s1 He1) as [H _]. exact H.
Qed.

Lemma errored_addProcessingActions (fuel : nat) (actions : AsyncActions T)
    (s : State E) :
  error_ s <> None ->
  post (addProcessingActions fuel actions s) (errorHeld s).
Proof.
  intro He. unfold addProcessingActions, bind, gets, modify.
  destruct (actionGuard_ s).
  - simpl. apply errorHeld_same;
      [discriminate | reflexivity | intros []; reflexivity].
  - destruct fuel as [|fuel]; simpl.
    + apply errorHeld_same; [exact He | reflexivity | intros []; reflexivity].
    + destruct actions as [batch|batch]; simpl.
      * eapply post_weaken; [|apply errored_processActions; exact He].
        intros s' (H1 & H2 & H3). repeat split; assumption.
      * apply errorHeld_same;
          [exact He | reflexivity | intros []; reflexivity].
Qed.

Lemma errored_fulfilFuture (fuel : nat) (s : State E) :
  error_ s <> None -> post (fulfilFuture fuel s) (errorHeld s).
Proof.
  intro He. unfold fulfilFuture, bind, gets, modify.
  destruct (futures_ s) as [|batch rest]; simpl;
    [apply errorHeld_refl; exact He|].
  eapply post_weaken; [|apply errored_processActions; exact He].
  intros s' (H1 & H2 & H3). repeat split; assumption.
Qed.

Lemma errored_accept (fuel : nat)
    (transportParams : option (ServerTransportParametersExtension T))
    (s : State E) :
  error_ s <> None -> post (accept fuel transportParams s) (errorHeld s).
Proof.
  intro He. unfold accept.
  eapply post_weaken; [|apply post_scope_exit with (Q := errorHeld s)].
  - intros s' (s2 & H2 & [-> | ->]); [exact H2|].
    destruct H2 as (H1 & H2 & H3). repeat split; assumption.
  - unfold bind at 1 2. unfold modify.
    unfold processAccept. unfold bind at 1 2. unfold gets.
    match goal with
    | |- context [engineAccept E ?st ?p] =>
        destruct (engineAccept E st p) as [st' actions]
    end.
    unfold bind, modify.
    eapply post_weaken; [|apply errored_addProcessingActions; exact He].
    intros s' (H1 & H2 & H3). repeat split; assumption.
Qed.

(** With an error recorded, a completion applies its batch, releases the
    guard, runs the callback test and clears the event flag; the drain it
    ends with does nothing. *)
Lemma errored_completion (fuel : nat) (actions : Actions T) (s : State E) :
  error_ s <> None ->
  processActions (S (S (S fuel))) actions s =
  (processCryptoActions actions ;; modify completed) s.
Proof.
  intro He. rewrite processActions_unfold. unfold bind.
  pose proof (internal_processCryptoActions actions s) as Hsteps.
  destruct (processCryptoActions actions s) as [[] s1|e s1|m|s1];
    try reflexivity.
  simpl in Hsteps. unfold modify.
  apply processPendingEvents_idle. right.
  destruct (completed_errorHeld s1 (steps_error_kept Hsteps He)) as [H _].
  exact H.
Qed.

(** ** C2 *)

Lemma calls_surface_error (s : State E) (e : Error) :
  error_ s = Some e ->
  (forall fuel data l,
     let s' :=
       set_inHandshakeStack_ false
         (set_readBuf (levelBuf l) (readBuf (levelBuf l) s ++ data)
            (set_waitForData_ false s)) in
     doHandshake (S (S fuel)) data (Enumerator l) s = Thrown e s' /\
     error_ s' = Some e /\ events_ s' = events_ s /\
     engine_ s' = engine_ s) /\
  (forall fuel token,
     let s' :=
       set_inHandshakeStack_ false
         (set_engine_ (engineNewSessionTicket E token (engine_ s)) s) in
     writeNewSessionTicket (S (S fuel)) token s = Thrown e s' /\
     error_ s' = Some e /\ events_ s' = events_ s /\
     (forall b, readBuf b s' = readBuf b s)) /\
  (getHandshakeReadCipher s = Thrown e s /\
   getOneRttWriteCipher s = Thrown e s /\
   getOneRttReadCipher s = Thrown e s /\
   getZeroRttReadCipher s = Thrown e s /\
   getOneRttReadHeaderCipher s = Thrown e s /\
   getOneRttWriteHeaderCipher s = Thrown e s /\
   getHandshakeReadHeaderCipher s = Thrown e s /\
   getZeroRttReadHeaderCipher s = Thrown e s) /\
  (forall fuel, pendingEventsLoop (S fuel) s = Returned tt s).
Proof.
  intro Herr. split; [|split; [|split]].
  - intros fuel data l s'.
    assert (Hs' : error_ s' = Some e /\ events_ s' = events_ s /\
                  engine_ s' = engine_ s)
      by (subst s'; destruct l; simpl; auto).
    split; [|exact Hs'].
    set (s1 := set_readBuf (levelBuf l) (readBuf (levelBuf l) s ++ data)
                 (set_waitForData_ false (set_inHandshakeStack_ true s))).
    assert (H1 : error_ s1 = Some e) by (subst s1; destruct l; exact Herr).
    assert (Hdrain : processPendingEvents (S (S fuel)) s1 = Returned tt s1)
      by (apply processPendingEvents_idle; right; congruence).
    unfold doHandshake, scope_exit.
    replace ((modify (set_inHandshakeStack_ true);;
              modify (set_waitForData_ false);;
              match Enumerator l with
              | Enumerator Initial => appendBuf initialReadBuf data
              | Enumerator Handshake => appendBuf handshakeReadBuf data
              | Enumerator EarlyData | Enumerator AppData =>
                  appendBuf appDataReadBuf data
              | OutOfRange _ => fatal "Unhandled EncryptionLevel"
              end;; processPendingEvents (S (S fuel));; throwIfError) s)
      with ((processPendingEvents (S (S fuel));; throwIfError) s1)
      by (subst s1; destruct l; reflexivity).
    unfold bind. rewrite Hdrain. rewrite (throwIfError_set _ H1).
    subst s1 s'. destruct l; destruct s; reflexivity.
  - intros fuel token s'.
    split; [|subst s'; repeat split; auto; intros []; reflexivity].
    set (s1 := set_engine_ (engineNewSessionTicket E token (engine_ s))
                 (set_inHandshakeStack_ true s)).
    assert (H1 : error_ s1 = Some e) by exact Herr.
    assert (Hdrain : processPendingEvents (S (S fuel)) s1 = Returned tt s1)
      by (apply processPendingEvents_idle; right; congruence).
    unfold writeNewSessionTicket, scope_exit.
    change ((modify (set_inHandshakeStack_ true);;
             writeNewSessionTicketToCrypto token;;
             processPendingEvents (S (S fuel));; throwIfError) s)
      with ((processPendingEvents (S (S fuel));; throwIfError) s1).
    unfold bind. rewrite Hdrain. rewrite (throwIfError_set _ H1).
    subst s1 s'. destruct s; reflexivity.
  - repeat split; apply getter_throws; exact Herr.
  - intro fuel. eapply pendingEventsLoop_error. exact Herr.
Qed.

(** C2, as the code has it.  A recorded error is never cleared, but a
    later [onError] replaces the pair.  With the pair [e] recorded,
    [doHandshake] (at each of the four levels), [writeNewSessionTicket]
    and the eight cipher getters all fail with exactly [e] and leave [e]
    recorded, so they go on failing with [e] until a later error is
    recorded; the drain loop returns at once without an iteration; a feed
    only appends its bytes and a ticket only reaches the engine's queue.
    Whatever else runs in that state ([accept], [addProcessingActions],
    an engine completion, the completion of a deferred batch), an error
    stays recorded, no read buffer is handed to the engine and no byte
    leaves a read buffer. *)
Theorem terminal_error_is_sticky (s : State E) (e : Error) :
  error_ s = Some e ->
  ((forall fuel data l,
     let s' :=
       set_inHandshakeStack_ false
         (set_readBuf (levelBuf l) (readBuf (levelBuf l) s ++ data)
            (set_waitForData_ false s)) in
     doHandshake (S (S fuel)) data (Enumerator l) s = Thrown e s' /\
     error_ s' = Some e /\ events_ s' = events_ s /\
     engine_ s' = engine_ s) /\
  (forall fuel token,
     let s' :=
       set_inHandshakeStack_ false
         (set_engine_ (engineNewSessionTicket E token (engine_ s)) s) in
     writeNewSessionTicket (S (S fuel)) token s = Thrown e s' /\
     error_ s' = Some e /\ events_ s' = events_ s /\
     (forall b, readBuf b s' = readBuf b s)) /\
  (getHandshakeReadCipher s = Thrown e s /\
   getOneRttWriteCipher s = Thrown e s /\
   getOneRttReadCipher s = Thrown e s /\
   getZeroRttReadCipher s = Thrown e s /\
   getOneRttReadHeaderCipher s = Thrown e s /\
   getOneRttWriteHeaderCipher s = Thrown e s /\
   getHandshakeReadHeaderCipher s = Thrown e s /\
   getZeroRttReadHeaderCipher s = Thrown e s) /\
  (forall fuel, pendingEventsLoop (S fuel) s = Returned tt s)) /\
  (forall fuel actions,
     post (processActions fuel actions s) (errorHeld s)) /\
  (forall fuel, post (fulfilFuture fuel s) (errorHeld s)) /\
  (forall fuel actions,
     post (addProcessingActions fuel actions s) (errorHeld s)) /\
  (forall fuel transportParams,
     post (accept fuel transportParams s) (errorHeld s)).
Proof.
  intro Herr.
  assert (He : error_ s <> None) by congruence.
  refine (conj (@calls_surface_error s e Herr) (conj _ (conj _ (conj _ _)))).
  - intros fuel actions. apply errored_processActions. exact He.
  - intros fuel. apply errored_fulfilFuture. exact He.
  - intros fuel actions. apply errored_addProcessingActions. exact He.
  - intros fuel tp. apply errored_accept. exact He.
Qed.

(** ** C8 *)

(** C8, as the code has it.  After a terminal error [e] every one of the
    eight cipher getters fails with [e] and leaves the object, and with it
    every installed cipher, where it was.  The drain is not entered again:
    [processPendingEvents] gives the object back unchanged, and no engine
    completion, deferred completion, [accept] or [addProcessingActions]
    hands a read buffer to the engine.  A batch that completes in that
    state is still applied: [processActions] applies it, releases the
    guard, runs the callback test and clears the event flag. *)
Theorem getters_fail_after_error (s : State E) (e : Error) :
  error_ s = Some e ->
  (getHandshakeReadCipher s = Thrown e s /\
   getOneRttWriteCipher s = Thrown e s /\
   getOneRttReadCipher s = Thrown e s /\
   getZeroRttReadCipher s = Thrown e s /\
   getOneRttReadHeaderCipher s = Thrown e s /\
   getOneRttWriteHeaderCipher s = Thrown e s /\
   getHandshakeReadHeaderCipher s = Thrown e s /\
   getZeroRttReadHeaderCipher s = Thrown e s) /\
  (forall fuel, processPendingEvents (S (S fuel)) s = Returned tt s) /\
  (forall fuel actions,
     processActions (S (S (S fuel))) actions s =
     (processCryptoActions actions ;; modify completed) s) /\
  (forall fuel actions,
     post (processActions fuel actions s) (errorHeld s)) /\
  (forall fuel, post (fulfilFuture fuel s) (errorHeld s)) /\
  (forall fuel actions,
     post (addProcessingActions fuel actions s) (errorHeld s)) /\
  (forall fuel transportParams,
     post (accept fuel transportParams s) (errorHeld s)).
Proof.
  intro Herr.
  assert (He : error_ s <> None) by congruence.
  refine (conj _ (conj _ (conj _ (conj _ (conj _ (conj _ _)))))).
  - repeat split; apply getter_throws; exact Herr.
  - intro fuel. apply processPendingEvents_idle. right. exact He.
  - intros fuel actions. apply errored_completion. exact He.
  - intros fuel actions. apply errored_processActions. exact He.
  - intros fuel. apply errored_fulfilFuture. exact He.
  - intros fuel actions. apply errored_addProcessingActions. exact He.
  - intros fuel tp. apply errored_accept. exact He.
Qed.

(** ** C6 *)

Lemma applyAction_done (a : Action T) (s : State E) :
  match applyAction a s with
  | Returned _ s1 =>
      handshakeDone_ s = true \/ a = ReportHandshakeSuccess ->
      handshakeDone_ s1 = true
  | Fatal _ => True
  | Thrown _ _ | OutOfFuel _ => False
  end.
Proof.
  destruct a as [kind secret|level data|m c| | |p]; simpl;
    try (intros [H|H]; [exact H|discriminate H]).
  - unfold computeCiphers. destruct (buildCiphers E secret).
    destruct kind; (intros [H|H]; [exact H|discriminate H]).
  - unfold writeDataToStream. destruct (isEarlyData level); [exact I|].
    destruct level as [l|raw]; simpl; [|exact I].
    intros [H|H]; [exact H|discriminate H].
  - intros _. reflexivity.
Qed.

Lemma processCryptoActions_done (actions : Actions T) (s : State E) :
  match processCryptoActions actions s with
  | Returned _ s1 =>
      handshakeDone_ s = true \/ In ReportHandshakeSuccess actions ->
      handshakeDone_ s1 = true
  | Fatal _ => True
  | Thrown _ _ | OutOfFuel _ => False
  end.
Proof.
  revert s. induction actions as [|a rest IH]; intro s; simpl.
  - intros [H|[]]. exact H.
  - unfold bind. pose proof (applyAction_done a s) as Ha.
    destruct (applyAction a s) as [[] s1|e s1|m|s1]; try exact Ha.
    specialize (IH s1).
    destruct (processCryptoActions rest s1) as [[] s2|e s2|m|s2];
      try exact IH.
    intros [H|[H|H]].
    + apply IH. left. apply Ha. left. exact H.
    + apply IH. left. apply Ha. right. exact H.
    + apply IH. right. exact H.
Qed.

Lemma post_getter {A : Type} (member : State E -> option A)
    (assign : option A -> State E -> State E) (s : State E)
    (Q : State E -> Prop) :
  Q s -> Q (assign None s) ->
  post ((throwIfError ;; moveOut member assign) s) Q.
Proof.
  intros Hs Ha. unfold bind, throwIfError, bind, gets, throw, ret, moveOut,
    bind, gets, modify, ret.
  destruct (error_ s); simpl; assumption.
Qed.

(** C6, as the code has it.  [onHandshakeDone] marks an event as available
    and changes nothing else; it does not itself write the flag that
    [isHandshakeDone] reads.  The flag is set by the action dispatcher
    when the engine reports handshake success, just before it calls
    [onHandshakeDone], so once a batch with that report has been applied
    [isHandshakeDone] answers yes.  The flag is never cleared: once true
    it stays true through engine completions, deferred completions,
    [addProcessingActions], [accept], feeds, session tickets, the eight
    getters, [initialize] and [cancel]. *)
Theorem onHandshakeDone_marks_event_only (s : State E) :
  onHandshakeDone s = set_handshakeEventAvailable_ true s /\
  handshakeEventAvailable_ (onHandshakeDone s) = true /\
  isHandshakeDone (onHandshakeDone s) = isHandshakeDone s /\
  (forall fuel actions,
     In ReportHandshakeSuccess actions ->
     post (processActions (S fuel) actions s)
       (fun s' => isHandshakeDone s' = true)) /\
  (isHandshakeDone s = true ->
   (forall fuel actions,
      post (processActions fuel actions s)
        (fun s' => isHandshakeDone s' = true)) /\
   (forall fuel,
      post (fulfilFuture fuel s) (fun s' => isHandshakeDone s' = true)) /\
   (forall fuel actions,
      post (addProcessingActions fuel actions s)
        (fun s' => isHandshakeDone s' = true)) /\
   (forall fuel transportParams,
      post (accept fuel transportParams s)
        (fun s' => isHandshakeDone s' = true)) /\
   (forall fuel data level,
      post (doHandshake fuel data level s)
        (fun s' => isHandshakeDone s' = true)) /\
   (forall fuel token,
      post (writeNewSessionTicket fuel token s)
        (fun s' => isHandshakeDone s' = true)) /\
   (post (getHandshakeReadCipher s) (fun s' => isHandshakeDone s' = true) /\
    post (getOneRttWriteCipher s) (fun s' => isHandshakeDone s' = true) /\
    post (getOneRttReadCipher s) (fun s' => isHandshakeDone s' = true) /\
    post (getZeroRttReadCipher s) (fun s' => isHandshakeDone s' = true) /\
    post (getOneRttReadHeaderCipher s)
      (fun s' => isHandshakeDone s' = true) /\
    post (getOneRttWriteHeaderCipher s)
      (fun s' => isHandshakeDone s' = true) /\
    post (getHandshakeReadHeaderCipher s)
      (fun s' => isHandshakeDone s' = true) /\
    post (getZeroRttReadHeaderCipher s)
      (fun s' => isHandshakeDone s' = true)) /\
   (forall executor callback validator,
      post (initialize executor callback validator s)
        (fun s' => isHandshakeDone s' = true)) /\
   isHandshakeDone (cancel s) = true).
Proof.
  refine (conj eq_refl (conj eq_refl (conj eq_refl (conj _ _)))).
  - intros fuel actions Hin. unfold isHandshakeDone.
    rewrite processActions_unfold. unfold bind.
    pose proof (processCryptoActions_done actions s) as Hb.
    destruct (processCryptoActions actions s) as [[] s1|e s1|m|s1];
      try contradiction; [|exact I].
    assert (H1 : handshakeDone_ s1 = true) by (apply Hb; right; exact Hin).
    eapply post_weaken; [|apply internal_processPendingEvents].
    intros s' Hsteps. apply (steps_handshakeDone Hsteps).
    unfold completed.
    destruct (callback_ s1); [destruct (shouldNotify s1)|]; exact H1.
  - unfold isHandshakeDone. intro Hdone.
    refine (conj _ (conj _ (conj _ (conj _ (conj _ (conj _
              (conj _ (conj _ Hdone)))))))).
    + intros fuel actions.
      eapply post_weaken; [|apply internal_processActions].
      intros s' Hsteps. exact (steps_handshakeDone Hsteps Hdone).
    + intros fuel. eapply post_weaken; [|apply fulfilFuture_steps].
      intros s' [-> | (batch & rest & _ & Hsteps)]; [exact Hdone|].
      exact (steps_handshakeDone Hsteps Hdone).
    + intros fuel actions.
      eapply post_weaken; [|apply internal_addProcessingActions].
      intros s' Hsteps. exact (steps_handshakeDone Hsteps Hdone).
    + intros fuel tp. eapply post_weaken; [|apply accept_steps].
      intros s' (s2 & Hsteps & Hexit).
      pose proof (steps_handshakeDone Hsteps Hdone) as H2.
      destruct Hexit as [-> | ->]; exact H2.
    + intros fuel data [l|raw]; [|exact I].
      eapply post_weaken; [|apply doHandshake_steps].
      intros s' (s2 & Hsteps & Hexit).
      assert (H2 : handshakeDone_ s2 = true)
        by (apply (steps_handshakeDone Hsteps); destruct l; exact Hdone).
      destruct Hexit as [-> | ->]; exact H2.
    + intros fuel token.
      eapply post_weaken; [|apply writeNewSessionTicket_steps].
      intros s' (s2 & Hsteps & Hexit).
      pose proof (steps_handshakeDone Hsteps Hdone) as H2.
      destruct Hexit as [-> | ->]; exact H2.
    + repeat apply conj; apply post_getter; exact Hdone.
    + intros executor callback validator. exact Hdone.
Qed.

(** ** C5 *)

Lemma feeds_are_conserved :
  (forall fuel data l (s : State E) b,
     post (doHandshake fuel data (Enumerator l) s)
       (fun s' =>
          presented b s' =
          presented b s ++
          (if ReadBufRef_eqb b (levelBuf l) then data else []))) /\
  (forall fuel data l (s : State E),
     actionGuard_ s = true ->
     let s' :=
       set_inHandshakeStack_ false
         (set_readBuf (levelBuf l) (readBuf (levelBuf l) s ++ data)
            (set_waitForData_ false s)) in
     doHandshake (S (S fuel)) data (Enumerator l) s =
       match error_ s with
       | Some e => Thrown e s'
       | None => Returned tt s'
       end /\
     readBuf (levelBuf l) s' = readBuf (levelBuf l) s ++ data /\
     (forall b, b <> levelBuf l -> readBuf b s' = readBuf b s) /\
     events_ s' = events_ s /\
     actionGuard_ s' = true) /\
  (forall fuel data raw (s : State E),
     doHandshake fuel data (OutOfRange raw) s =
       Fatal "Unhandled EncryptionLevel").
Proof.
  split; [|split].
  - intros fuel data l s b.
    eapply post_weaken; [|apply doHandshake_steps].
    intros s' (s2 & Hsteps & Hexit).
    rewrite <- presented_fed, <- (steps_presented b Hsteps).
    destruct Hexit as [-> | ->]; [reflexivity|].
    unfold presented. destruct b; reflexivity.
  - intros fuel data l s Hguard s'.
    refine (conj _ (conj _ (conj _ (conj _ _)))).
    + set (s1 := set_readBuf (levelBuf l) (readBuf (levelBuf l) s ++ data)
                   (set_waitForData_ false (set_inHandshakeStack_ true s))).
      assert (Hg1 : actionGuard_ s1 = true)
        by (subst s1; destruct l; exact Hguard).
      assert (He1 : error_ s1 = error_ s) by (subst s1; destruct l; reflexivity).
      assert (Hdrain : processPendingEvents (S (S fuel)) s1 = Returned tt s1)
        by (apply processPendingEvents_idle; left; exact Hg1).
      unfold doHandshake, scope_exit.
      replace ((modify (set_inHandshakeStack_ true);;
                modify (set_waitForData_ false);;
                match Enumerator l with
                | Enumerator Initial => appendBuf initialReadBuf data
                | Enumerator Handshake => appendBuf handshakeReadBuf data
                | Enumerator EarlyData | Enumerator AppData =>
                    appendBuf appDataReadBuf data
                | OutOfRange _ => fatal "Unhandled EncryptionLevel"
                end;; processPendingEvents (S (S fuel));; throwIfError) s)
        with ((processPendingEvents (S (S fuel));; throwIfError) s1)
        by (subst s1; destruct l; reflexivity).
      unfold bind. rewrite Hdrain.
      unfold throwIfError, bind, gets, throw, ret. rewrite He1.
      destruct (error_ s) as [[m c]|]; subst s1 s'; destruct l; destruct s;
        reflexivity.
    + subst s'. destruct l; reflexivity.
    + intros b Hb. subst s'. destruct l, b; simpl in *; congruence.
    + subst s'. destruct l; reflexivity.
    + subst s'. destruct l; exact Hguard.
  - intros. apply doHandshake_out_of_range.
Qed.

(** C5. Feeding [data] at level [l] appends it to the buffer of that level
    and to no other (EarlyData and AppData share one).  For every buffer,
    what the engine has taken from it so far, in the order taken, followed
    by what is still buffered, grows by exactly the fed bytes at its end:
    nothing is lost, repeated or reordered.  While an action is in flight
    the feed returns with the bytes appended and nothing handed over, so
    feeds accumulate in order.  A level outside the four enumerators stops
    the process.  And the bytes do reach the engine: when the drain runs
    (entered from outside, no action in flight, no error, not waiting for
    data) the first thing it does is to hand the engine the entire
    buffer of the level the engine expects, and a feed on an idle object
    does so at once, with the fed bytes at the end of what is handed
    over when they were fed at that level. *)
Theorem read_buffers_are_fifo :
  (forall fuel data l (s : State E) b,
     post (doHandshake fuel data (Enumerator l) s)
       (fun s' =>
          presented b s' =
          presented b s ++
          (if ReadBufRef_eqb b (levelBuf l) then data else []))) /\
  (forall fuel data l (s : State E),
     actionGuard_ s = true ->
     let s' :=
       set_inHandshakeStack_ false
         (set_readBuf (levelBuf l) (readBuf (levelBuf l) s ++ data)
            (set_waitForData_ false s)) in
     doHandshake (S (S fuel)) data (Enumerator l) s =
       match error_ s with
       | Some e => Thrown e s'
       | None => Returned tt s'
       end /\
     readBuf (levelBuf l) s' = readBuf (levelBuf l) s ++ data /\
     (forall b, b <> levelBuf l -> readBuf b s' = readBuf b s) /\
     events_ s' = events_ s /\
     actionGuard_ s' = true) /\
  (forall fuel data raw (s : State E),
     doHandshake fuel data (OutOfRange raw) s =
       Fatal "Unhandled EncryptionLevel") /\
  (forall fuel l (s : State E),
     inProcessPendingEvents_ s = false ->
     actionGuard_ s = false ->
     error_ s = None ->
     waitForData_ s = false ->
     engineReadLevel E (engine_ s) = Enumerator l ->
     post (processPendingEvents (S (S fuel)) s)
       (fun s' =>
          exists rest,
            events_ s' =
            events_ s ++
            EngineRead (levelBuf l) (readBuf (levelBuf l) s)
              (snd (fst (engineSocketData E (engine_ s)
                           (readBuf (levelBuf l) s)))) :: rest)) /\
  (forall fuel data l expected (s : State E),
     inProcessPendingEvents_ s = false ->
     actionGuard_ s = false ->
     error_ s = None ->
     engineReadLevel E (engine_ s) = Enumerator expected ->
     let b := levelBuf expected in
     let contents :=
       readBuf b s ++ (if ReadBufRef_eqb b (levelBuf l) then data else []) in
     post (doHandshake (S (S fuel)) data (Enumerator l) s)
       (fun s' =>
          exists rest,
            events_ s' =
            events_ s ++
            EngineRead b contents
              (snd (fst (engineSocketData E (engine_ s) contents)))
            :: rest)).
Proof.
  destruct feeds_are_conserved as (Hcons & Hguard & Hfatal).
  refine (conj Hcons (conj Hguard (conj Hfatal (conj _ _)))).
  - intros fuel l s. apply drain_first_read.
  - intros fuel data l expected s. apply doHandshake_first_read.
Qed.

End Properties.

(** * The code on concrete inputs *)

Import Scripted.

(** The first scenario of the spec: a complete Initial flight is taken, the
    engine then waits for Handshake data it does not have, and the call
    returns with nothing pending and the handshake not done. *)
Example scenario_initial_flight :
  let s := after (doHandshake 20 hello (Enumerator Initial))
             (listening twoFlights) in
  doHandshake 20 hello (Enumerator Initial) (listening twoFlights)
    = Returned tt s /\
  events_ s = [EngineRead initialReadBuf hello 5;
               EngineRead handshakeReadBuf [] 0] /\
  actionGuard_ s = false /\ waitForData_ s = true /\
  error_ s = None /\ isHandshakeDone s = false.
Proof. vm_compute. repeat apply conj; reflexivity. Qed.

(** The second scenario: the Handshake flight is answered by a deferred
    batch; when it completes, outside of any feed, the 1-RTT write cipher
    is there to be taken once and the callback has fired once. *)
Example scenario_handshake_flight :
  let s :=
    after (doHandshake 20 hello (Enumerator Initial) ;;
           doHandshake 20 fin (Enumerator Handshake) ;;
           fulfilFuture 20) (listening twoFlights) in
  notifications s = 1 /\
  isHandshakeDone s = true /\
  getOneRttWriteCipher s =
    Returned (Some secret1) (set_oneRttWriteCipher_ None s) /\
  getOneRttWriteCipher (set_oneRttWriteCipher_ None s) =
    Returned None (set_oneRttWriteCipher_ None s).
Proof. vm_compute. repeat apply conj; reflexivity. Qed.

(** Feeds made while an action is in flight pile up in order and are
    handed over together once the action has completed. *)
Example feeds_accumulate :
  let script :=
    [ (Enumerator Handshake, 0, FutureActions []);
      (Enumerator Handshake, 4, ImmediateActions [WaitForData]) ] in
  let s :=
    after (doHandshake 20 [] (Enumerator Handshake) ;;
           doHandshake 20 hello (Enumerator Handshake) ;;
           doHandshake 20 fin (Enumerator Handshake) ;;
           fulfilFuture 20) (listening script) in
  events_ s = [EngineRead handshakeReadBuf [] 0;
               EngineRead handshakeReadBuf (hello ++ fin) 4] /\
  handshakeReadBuf_ s = skipn 4 (hello ++ fin) /\
  presented handshakeReadBuf s = hello ++ fin.
Proof. vm_compute. repeat apply conj; reflexivity. Qed.

(** The two states the lemmas below start from are reached by a feed. *)
Example inflight_reached :
  doHandshake 20 hello (Enumerator Initial)
    (listening
       [(Enumerator Initial, 5,
         FutureActions [SecretAvailable OneRttWrite secret1])])
  = Returned tt inflight.
Proof. vm_compute. reflexivity. Qed.

Example errored_reached :
  doHandshake 20 hello (Enumerator Initial)
    (listening
       [(Enumerator Initial, 5,
         ImmediateActions
           [SecretAvailable HandshakeRead secret1;
            ReportError "boom" (OtherTransportError 300)])])
  = Thrown boom errored.
Proof. vm_compute. reflexivity. Qed.

(** ** Witnesses and counterexamples *)

Lemma one_action_in_flight_witness :
  actionGuard_ inflight = true /\
  addProcessingActions 5 (ImmediateActions [ReportHandshakeSuccess]) inflight =
    Returned tt
      (set_handshakeEventAvailable_ true
         (set_error_
            (Some ("Processing action while pending", INTERNAL_ERROR))
            inflight)) /\
  futures_ inflight = [[SecretAvailable OneRttWrite secret1]].
Proof.
  split; [reflexivity|]. split; [|reflexivity].
  exact (proj1 (proj1 (@one_action_in_flight types engine) 5
                  (ImmediateActions [ReportHandshakeSuccess]) inflight
                  eq_refl)).
Defined.

(** C2: the error recorded first is not the one surfaced for good.  With
    the internal error recorded while a batch was pending, the getter
    throws it; once the pending batch, which reports "boom", has
    completed, the same getter and the next feed throw "boom". *)
Lemma terminal_error_counterexample :
  error_ overlapped = Some pendingError /\
  getOneRttReadCipher overlapped = Thrown pendingError overlapped /\
  fulfilFuture 5 overlapped = Returned tt superseded /\
  getOneRttReadCipher superseded = Thrown boom superseded /\
  (exists s',
     doHandshake 5 fin (Enumerator Handshake) superseded = Thrown boom s') /\
  boom <> pendingError.
Proof.
  repeat apply conj; try (vm_compute; reflexivity).
  - eexists. vm_compute. reflexivity.
  - discriminate.
Qed.

Lemma terminal_error_is_sticky_witness :
  error_ errored = Some boom /\
  getOneRttWriteCipher errored = Thrown boom errored /\
  doHandshake 2 fin (Enumerator Handshake) errored =
    Thrown boom
      (set_inHandshakeStack_ false
         (set_handshakeReadBuf_ fin (set_waitForData_ false errored))).
Proof.
  split; [reflexivity|].
  destruct (@terminal_error_is_sticky types engine errored boom eq_refl)
    as ((Hfeed & _ & Hget & _) & _).
  split.
  - exact (proj1 (proj2 Hget)).
  - exact (proj1 (Hfeed 0 fin Handshake)).
Defined.

Lemma callback_gate_witness :
  processCryptoActions [SecretAvailable OneRttWrite secret1] (listening []) =
    Returned tt (computeCiphers OneRttWrite secret1 (listening [])) /\
  exists s2,
    processActions 6 [SecretAvailable OneRttWrite secret1] (listening []) =
      processPendingEvents 5 s2 /\
    notifications s2 = 1 /\ handshakeEventAvailable_ s2 = false.
Proof.
  split; [reflexivity|].
  destruct (proj1 (@callback_gate types engine) 5
              [SecretAvailable OneRttWrite secret1] (listening [])
              (computeCiphers OneRttWrite secret1 (listening [])) eq_refl)
    as (s2 & Hrun & _ & Hcount & Hflag & _).
  exists s2. split; [exact Hrun|]. split; [exact Hcount | exact Hflag].
Defined.

Lemma cipher_getters_move_out_witness :
  let s := computeCiphers HandshakeRead secret1 (fresh []) in
  error_ s = None /\
  getHandshakeReadCipher s =
    Returned (Some secret1) (set_handshakeReadCipher_ None s) /\
  getHandshakeReadCipher (set_handshakeReadCipher_ None s) =
    Returned None (set_handshakeReadCipher_ None s).
Proof.
  intro s. split; [reflexivity|].
  destruct (proj1 (proj1 (@cipher_getters_move_out types engine)) s eq_refl)
    as (Hfirst & _ & Hsecond).
  split; [exact Hfirst | exact Hsecond].
Defined.

Lemma read_buffers_are_fifo_witness :
  (actionGuard_ inflight = true /\
   doHandshake 2 fin (Enumerator Handshake) inflight =
     Returned tt
       (set_inHandshakeStack_ false
          (set_handshakeReadBuf_ fin (set_waitForData_ false inflight)))) /\
  (let s := listening twoFlights in
   (inProcessPendingEvents_ s = false /\ actionGuard_ s = false /\
    error_ s = None /\
    engineReadLevel engine (engine_ s) = Enumerator Initial) /\
   post (doHandshake 2 hello (Enumerator Initial) s)
     (fun s' =>
        exists rest,
          events_ s' = EngineRead initialReadBuf hello 5 :: rest)).
Proof.
  split.
  - split; [reflexivity|].
    exact (proj1 (proj1 (proj2 (@read_buffers_are_fifo types engine))
                    0 fin Handshake inflight eq_refl)).
  - intro s. split; [repeat apply conj; reflexivity|].
    exact (proj2 (proj2 (proj2 (proj2
             (@read_buffers_are_fifo types engine))))
             0 hello Initial Initial s eq_refl eq_refl eq_refl eq_refl).
Defined.

(** C6: on a fresh object [onHandshakeDone] marks the event, but
    [isHandshakeDone] still answers no: the callback does not set the
    flag. *)
Lemma onHandshakeDone_counterexample :
  isHandshakeDone (onHandshakeDone (fresh [])) = false /\
  handshakeEventAvailable_ (onHandshakeDone (fresh [])) = true /\
  ~ (forall s : State engine, isHandshakeDone (onHandshakeDone s) = true).
Proof.
  repeat apply conj; try (vm_compute; reflexivity).
  intro H. specialize (H (fresh [])). discriminate H.
Qed.

Lemma onHandshakeDone_marks_event_only_witness :
  (In ReportHandshakeSuccess
     [SecretAvailable (T:=types) OneRttWrite secret1;
      ReportHandshakeSuccess] /\
   post (processActions 5
           [SecretAvailable OneRttWrite secret1; ReportHandshakeSuccess]
           (fresh []))
     (fun s' => isHandshakeDone s' = true)) /\
  (let s := set_handshakeDone_ true (fresh []) in
   isHandshakeDone s = true /\
   isHandshakeDone (onHandshakeDone s) = true /\
   post (getOneRttWriteCipher s) (fun s' => isHandshakeDone s' = true) /\
   isHandshakeDone (cancel s) = true).
Proof.
  split.
  - assert (Hin : In ReportHandshakeSuccess
                    [SecretAvailable (T:=types) OneRttWrite secret1;
                     ReportHandshakeSuccess])
      by (right; left; reflexivity).
    split; [exact Hin|].
    destruct (@onHandshakeDone_marks_event_only types engine (fresh []))
      as (_ & _ & _ & Hreport & _).
    exact (Hreport 4 _ Hin).
  - intro s. split; [reflexivity|].
    destruct (@onHandshakeDone_marks_event_only types engine s)
      as (_ & _ & Hsame & _ & Hkeep).
    split; [exact Hsame|].
    destruct (Hkeep eq_refl) as (_ & _ & _ & _ & _ & _ & Hget & _ & Hcancel).
    split; [exact (proj1 (proj2 Hget)) | exact Hcancel].
Defined.

(** C8: the handshake read cipher was installed before the engine reported
    the error; the getter does not hand it out, it throws the error.  And
    progress does not stop with the error: the batch that was pending
    when the error was recorded still installs the 1-RTT write cipher and
    reaches the application callback when it completes. *)
Lemma getters_after_error_counterexample :
  (error_ errored = Some boom /\
   handshakeReadCipher_ errored = Some secret1 /\
   getHandshakeReadCipher errored = Thrown boom errored /\
   ~ (exists s',
        getHandshakeReadCipher errored =
          Returned (handshakeReadCipher_ errored) s')) /\
  (error_ overlapped = Some pendingError /\
   oneRttWriteCipher_ overlapped = None /\
   notifications overlapped = 0 /\
   fulfilFuture 5 overlapped = Returned tt superseded /\
   oneRttWriteCipher_ superseded = Some secret1 /\
   notifications superseded = 1).
Proof.
  split.
  - repeat apply conj; try (vm_compute; reflexivity).
    intros [s' H]. vm_compute in H. discriminate H.
  - repeat apply conj; vm_compute; reflexivity.
Qed.

Lemma getters_fail_after_error_witness :
  error_ errored = Some boom /\
  getHandshakeReadCipher errored = Thrown boom errored /\
  processPendingEvents 2 errored = Returned tt errored.
Proof.
  split; [reflexivity|].
  destruct (@getters_fail_after_error types engine errored boom eq_refl)
    as (Hget & Hdrain & _).
  split; [exact (proj1 Hget) | exact (Hdrain 0)].
Defined.

Lemma writeDataToStream_levels_witness :
  Handshake <> EarlyData /\
  exists s',
    writeDataToStream (Enumerator Handshake) fin (fresh []) = Returned tt s' /\
    cryptoState (conn_ s') Handshake = fin /\
    cryptoState (conn_ s') Initial = [].
Proof.
  split; [discriminate|].
  destruct (proj1 (@writeDataToStream_levels types engine fin (fresh [])) Handshake)
    as (s' & Hrun & Hown & Hother & _); [discriminate|].
  exists s'. split; [exact Hrun|]. split; [exact Hown|].
  apply Hother. discriminate.
Defined.

Lemma cancel_detaches_callback_witness :
  isCancelled (listening []) = false /\
  isCancelled (cancel (listening [])) = true /\
  post (completions [(6, [SecretAvailable OneRttWrite secret1])]
          (cancel (listening [])))
    (fun s' => isCancelled s' = true /\ notifications s' = 0).
Proof.
  split; [reflexivity|].
  destruct (@cancel_detaches_callback types engine (listening []))
    as (_ & _ & Hcancelled & Hsilent & _).
  split; [exact Hcancelled|].
  exact (Hsilent [(6, [SecretAvailable OneRttWrite secret1])]).
Defined.

Lemma getClientTransportParams_needs_accept_witness :
  getClientTransportParams (fresh []) = None /\
  post (accept (E:=engine) 5 (Some (Some 42)) (fresh []))
    (fun s' => getClientTransportParams s' = Some (Some 42)).
Proof.
  destruct (@getClientTransportParams_needs_accept types engine)
    as (Hfresh & _ & Haccept & _).
  split.
  - exact (Hfresh conn0 0 ([], [])).
  - exact (Haccept 5 (Some 42) (fresh [])).
Defined.

(** ** Witnesses of the further properties *)

Lemma install_then_retrieve_witness :
  error_ (fresh []) = None /\
  (a <- getOneRttWriteCipher ;; h <- getOneRttWriteHeaderCipher ;;
   ret (a, h)) (computeCiphers OneRttWrite secret1 (fresh [])) =
  Returned (Some secret1, Some (rev secret1))
    (set_oneRttWriteHeaderCipher_ None
       (set_oneRttWriteCipher_ None
          (computeCiphers OneRttWrite secret1 (fresh [])))).
Proof.
  split; [reflexivity|].
  exact (proj1 (proj2 (proj2
           (@install_then_retrieve types engine secret1 (fresh []) eq_refl)))).
Defined.

Lemma completions_never_throw_witness :
  In (ReportError "boom" (OtherTransportError 300))
    [SecretAvailable (T:=types) OneRttWrite secret1;
     ReportError "boom" (OtherTransportError 300)] /\
  post (processActions 5
          [SecretAvailable OneRttWrite secret1;
           ReportError "boom" (OtherTransportError 300)] (fresh []))
    (fun s' => error_ s' <> None).
Proof.
  assert (Hin : In (ReportError "boom" (OtherTransportError 300))
                  [SecretAvailable (T:=types) OneRttWrite secret1;
                   ReportError "boom" (OtherTransportError 300)])
    by (right; left; reflexivity).
  split; [exact Hin|].
  exact (proj2 (proj2 (proj2 (proj2
           (@completions_never_throw types engine 4)))) _ _ _ (fresh []) Hin).
Defined.

Lemma error_never_cleared_witness :
  error_ errored <> None /\
  post (doHandshake 5 fin (Enumerator Handshake) errored)
    (fun s' => error_ s' <> None).
Proof.
  assert (H : error_ errored <> None) by (vm_compute; discriminate).
  split; [exact H|].
  destruct (@error_never_cleared types engine errored H)
    as (_ & _ & _ & _ & Hfeed & _).
  exact (Hfeed 5 fin (Enumerator Handshake)).
Defined.

Lemma accept_does_not_throw_witness :
  actionGuard_ inflight = true /\
  exists s',
    accept (E:=engine) 5 None inflight = Returned tt s' /\
    error_ s' = Some ("Processing action while pending", INTERNAL_ERROR).
Proof.
  split; [reflexivity|].
  destruct (proj2 (@accept_does_not_throw types engine) 5 None inflight
              eq_refl) as (Hrun & Herr & _).
  eexists. split; [exact Hrun | exact Herr].
Defined.

Lemma drain_stops_only_when_stuck_witness :
  pendingEventsLoop 5 (fresh []) = Returned tt blocked /\
  drained blocked.
Proof.
  assert (H : pendingEventsLoop 5 (fresh []) = Returned tt blocked)
    by (vm_compute; reflexivity).
  split; [exact H|].
  exact (proj1 (@drain_stops_only_when_stuck types engine) 5 _ _ H).
Defined.

Lemma blocked_drain_is_a_no_op_witness :
  (actionGuard_ blocked = false /\ error_ blocked = None /\
   waitForData_ blocked = true /\
   enginePendingCryptoEvent engine (engine_ blocked) = None) /\
  processPendingEvents 2 blocked = Returned tt blocked.
Proof.
  split; [repeat apply conj; reflexivity|].
  exact (@blocked_drain_is_a_no_op types engine 0 blocked
           eq_refl eq_refl eq_refl eq_refl).
Defined.

Lemma unknown_engine_level_is_fatal_witness :
  let s := fresh [(OutOfRange 9, 0, ImmediateActions [])] in
  (inProcessPendingEvents_ s = false /\ actionGuard_ s = false /\
   error_ s = None /\
   engineReadLevel engine (engine_ s) = OutOfRange 9) /\
  doHandshake 2 hello (Enumerator Initial) s =
    Fatal "Unhandled EncryptionLevel".
Proof.
  intro s. split; [repeat apply conj; reflexivity|].
  exact (proj2 (@unknown_engine_level_is_fatal types engine 0 9%N s
                  eq_refl eq_refl eq_refl eq_refl) hello Initial).
Defined.


Lemma reported_events_reach_the_callback_witness :
  (callback_ (listening []) = Some 7 /\
   inHandshakeStack_ (listening []) = false /\
   existsb raisesEvent [SecretAvailable (T:=types) OneRttWrite secret1]
     = true) /\
  post (processActions 6 [SecretAvailable OneRttWrite secret1] (listening []))
    (fun s' =>
       exists rest,
         events_ s' = onCryptoEventAvailable (T:=types) 7 :: rest).
Proof.
  split; [repeat apply conj; reflexivity|].
  exact (@reported_events_reach_the_callback types engine 5
           [SecretAvailable OneRttWrite secret1] 7 (listening [])
           eq_refl eq_refl eq_refl).
Defined.

Lemma ticket_in_flight_is_queued_witness :
  actionGuard_ inflight = true /\
  writeNewSessionTicket (E:=engine) 2 fin inflight =
    Returned tt
      (set_inHandshakeStack_ false
         (set_engine_ (E:=engine) ([], [fin]) inflight)).
Proof.
  split; [reflexivity|].
  exact (@ticket_in_flight_is_queued types engine 0 fin inflight eq_refl).
Defined.


Lemma feed_consumes_its_events_witness :
  handshakeEventAvailable_ (listening twoFlights) = false /\
  finished (doHandshake 20 hello (Enumerator Initial) (listening twoFlights))
    (fun s' => handshakeEventAvailable_ s' = false /\ notifications s' = 0).
Proof.
  split; [reflexivity|].
  exact (proj1 (@feed_consumes_its_events types engine
                  (listening twoFlights) eq_refl)
           20 hello (Enumerator Initial)).
Defined.
